(** * chip-input: the clipboard serializer and the chip list handlers

    A shallow embedding of
    - [src/application/serialization/ChipClipboardSerializer.ts]
      (the clipboard codec: [serialize], [deserialize], ...),
    - [src/presentation/components/ChipInput.tsx]
      (the event handlers of the controlled component),
    - [src/domain/entities/Chip.ts] (the [Chip] entity),
    together with the parts of the JavaScript platform they call:
    strings as sequences of UTF-16 code units, [String.prototype.trim],
    [split], [startsWith], [slice], [JSON.stringify], [JSON.parse] and
    [crypto.randomUUID]. *)

From Stdlib Require Import Ascii String.
From Stdlib Require Import List NArith ZArith Bool Lia.
Import ListNotations.

Set Implicit Arguments.

(* ================================================================== *)
(** * JavaScript strings                                               *)
(* ================================================================== *)

Module JS.

(** A JavaScript string is a finite sequence of 16-bit code units. *)
Abbreviation code_unit := N.
Abbreviation jsstring := (list N).

(** The string literals of the source (all ASCII), one code unit per
    character. *)
Definition lit (s : string) : jsstring :=
  map N_of_ascii (list_ascii_of_string s).

(** [a === b] on strings. *)
Fixpoint str_eqb (a b : jsstring) : bool :=
  match a, b with
  | [], [] => true
  | x :: a', y :: b' => N.eqb x y && str_eqb a' b'
  | _, _ => false
  end.

(** [s.startsWith(p)] *)
Fixpoint startsWith (s p : jsstring) {struct p} : bool :=
  match p, s with
  | [], _ => true
  | x :: p', y :: s' => N.eqb x y && startsWith s' p'
  | _ :: _, [] => false
  end.

(** [s.slice(n)] for [0 <= n]. *)
Definition slice_from (n : nat) (s : jsstring) : jsstring := skipn n s.

(** [s.slice(0, -1)]: everything but the last element (also on arrays). *)
Definition slice_0_m1 {A} (l : list A) : list A := removelast l.

(** WhiteSpace and LineTerminator code points, the ones [trim] strips. *)
Definition isWhiteSpace (c : code_unit) : bool :=
  ((9 <=? c) && (c <=? 13)           (* TAB LF VT FF CR *)
   || (c =? 32) || (c =? 160)        (* SP NBSP *)
   || (c =? 5760)                    (* U+1680 *)
   || ((8192 <=? c) && (c <=? 8202)) (* U+2000 .. U+200A *)
   || (c =? 8232) || (c =? 8233)     (* LS PS *)
   || (c =? 8239) || (c =? 8287)     (* U+202F U+205F *)
   || (c =? 12288) || (c =? 65279)   (* U+3000 U+FEFF *))%N.

Fixpoint trimStart (s : jsstring) : jsstring :=
  match s with
  | c :: s' => if isWhiteSpace c then trimStart s' else s
  | [] => []
  end.

Definition trimEnd (s : jsstring) : jsstring := rev (trimStart (rev s)).

(** [s.trim()] *)
Definition trim (s : jsstring) : jsstring := trimEnd (trimStart s).

(** [s.split(sep)] for a separator of one code unit: always at least
    one segment ([''.split(',')] is [['']]). *)
Fixpoint split (sep : code_unit) (s : jsstring) : list jsstring :=
  match s with
  | [] => [[]]
  | c :: s' =>
      if N.eqb c sep then [] :: split sep s'
      else match split sep s' with
           | seg :: segs => (c :: seg) :: segs
           | [] => [[c]]
           end
  end.

(** [segs.join(sep)] *)
Fixpoint join (sep : jsstring) (segs : list jsstring) : jsstring :=
  match segs with
  | [] => []
  | [seg] => seg
  | seg :: segs' => seg ++ sep ++ join sep segs'
  end.

(** ToBoolean on a string: the empty string is the only falsy one. *)
Definition truthy_str (s : jsstring) : bool :=
  match s with [] => false | _ :: _ => true end.

(** Completion records: a call returns normally or throws. *)
Inductive exn := SyntaxError | TypeError | RangeError.

Inductive completion (A : Type) :=
| Normal (a : A)
| Throw (e : exn).
Arguments Throw {A} e.

Definition bind {A B} (m : completion A) (k : A -> completion B) : completion B :=
  match m with
  | Normal a => k a
  | Throw e => Throw e
  end.

(** [try { body } catch (e) { handler(e) }] *)
Definition try_catch {A} (body : completion A) (handler : exn -> A) : A :=
  match body with
  | Normal a => a
  | Throw e => handler e
  end.

End JS.

Import JS.

Notation "x <- m ;; k" := (JS.bind m (fun x => k))
  (at level 61, m at next level, right associativity).

(* ================================================================== *)
(** * JSON: the values, [JSON.parse] and [JSON.stringify]              *)
(* ================================================================== *)

Module JSON.

(** A number as its literal denotes it: [(-1)^neg * coeff * 10^exp10].
    The Number value is the binary64 nearest to it (ties to even); the
    code only ever asks whether that is [1] or [0]. *)
Record number := mkNumber { neg : bool; coeff : N; exp10 : Z }.

(** [x === 1]: the literal lies within half an ulp of 1, that is in
    [[1 - 2^-54, 1 + 2^-53]] (both ends round to the even 1). *)
Definition is_one (x : number) : bool :=
  negb (neg x) &&
  (if (0 <=? exp10 x)%Z
   then (Z.of_N (coeff x) * 10 ^ exp10 x =? 1)%Z
   else let d := (10 ^ (- exp10 x))%Z in
        let m := (Z.of_N (coeff x) * 2 ^ 54)%Z in
        (((2 ^ 54 - 1) * d <=? m) && (m <=? (2 ^ 54 + 2) * d))%Z).

(** [x === 0] (or [-0]): the literal is at most [2^-1075] in magnitude. *)
Definition is_zero (x : number) : bool :=
  (coeff x =? 0)%N ||
  ((exp10 x <? 0)%Z && (Z.of_N (coeff x) * 2 ^ 1075 <=? 10 ^ (- exp10 x))%Z).

(** The values [JSON.parse] builds. An object keeps its members as they
    were read; a later member of the same name shadows an earlier one
    (see [get]). *)
#[warnings="-register-all"]
Inductive json :=
| JNull
| JBool (b : bool)
| JNum (n : number)
| JStr (s : jsstring)
| JArr (elems : list json)
| JObj (members : list (jsstring * json)).

(** ** The parser *)

Inductive parse_result (A : Type) :=
| Parsed (a : A) (rest : jsstring)
| Reject
| OutOfFuel.
Arguments Reject {A}.
Arguments OutOfFuel {A}.

Definition pmap {A B} (f : A -> B) (r : parse_result A) : parse_result B :=
  match r with
  | Parsed a rest => Parsed (f a) rest
  | Reject => Reject
  | OutOfFuel => OutOfFuel
  end.

Local Open Scope N_scope.

Definition is_ws (c : code_unit) : bool :=
  (c =? 32) || (c =? 9) || (c =? 10) || (c =? 13).

Fixpoint skip_ws (s : jsstring) : jsstring :=
  match s with
  | c :: s' => if is_ws c then skip_ws s' else s
  | [] => []
  end.

Definition is_digit (c : code_unit) : bool := (48 <=? c) && (c <=? 57).

Definition hex_val (c : code_unit) : option N :=
  if is_digit c then Some (c - 48)
  else if (97 <=? c) && (c <=? 102) then Some (c - 87)
  else if (65 <=? c) && (c <=? 70) then Some (c - 55)
  else None.

Definition hex4 (h1 h2 h3 h4 : code_unit) : option code_unit :=
  match hex_val h1, hex_val h2, hex_val h3, hex_val h4 with
  | Some a, Some b, Some c, Some d => Some (4096 * a + 256 * b + 16 * c + d)
  | _, _, _, _ => None
  end.

(** The single-character escapes: quote, backslash, slash, b f n r t. *)
Definition unescape (e : code_unit) : option code_unit :=
  if e =? 34 then Some 34
  else if e =? 92 then Some 92
  else if e =? 47 then Some 47
  else if e =? 98 then Some 8
  else if e =? 102 then Some 12
  else if e =? 110 then Some 10
  else if e =? 114 then Some 13
  else if e =? 116 then Some 9
  else None.

(** The characters of a string literal, after its opening quote and up
    to and including the closing one. *)
Fixpoint string_chars (s : jsstring) : parse_result jsstring :=
  match s with
  | [] => Reject
  | c :: s1 =>
      if c =? 34 then Parsed [] s1
      else if c =? 92 then
        match s1 with
        | [] => Reject
        | e :: s2 =>
            if e =? 117 then
              match s2 with
              | h1 :: h2 :: h3 :: h4 :: s3 =>
                  match hex4 h1 h2 h3 h4 with
                  | Some u => pmap (cons u) (string_chars s3)
                  | None => Reject
                  end
              | _ => Reject
              end
            else
              match unescape e with
              | Some u => pmap (cons u) (string_chars s2)
              | None => Reject
              end
        end
      else if c <? 32 then Reject
      else pmap (cons c) (string_chars s1)
  end.

(** The longest run of decimal digits at the head, as digit values. *)
Fixpoint span_digits (s : jsstring) : list N * jsstring :=
  match s with
  | c :: s' =>
      if is_digit c
      then let '(ds, rest) := span_digits s' in ((c - 48) :: ds, rest)
      else ([], s)
  | [] => ([], [])
  end.

Definition N_of_digits (ds : list N) : N :=
  fold_left (fun acc d => 10 * acc + d) ds 0.

(** [frac]: nothing, or a dot and at least one digit. *)
Definition fraction (s : jsstring) : option (list N * jsstring) :=
  match s with
  | c :: s' =>
      if c =? 46 then
        match span_digits s' with
        | ([], _) => None
        | (ds, rest) => Some (ds, rest)
        end
      else Some ([], s)
  | [] => Some ([], [])
  end.

(** [exp]: nothing, or e/E, an optional sign and at least one digit. *)
Definition exponent (s : jsstring) : option (Z * jsstring) :=
  match s with
  | c :: s' =>
      if (c =? 101) || (c =? 69) then
        let '(minus, s'') :=
          match s' with
          | g :: t => if g =? 45 then (true, t)
                      else if g =? 43 then (false, t) else (false, s')
          | [] => (false, s')
          end in
        match span_digits s'' with
        | ([], _) => None
        | (ds, rest) =>
            let e := Z.of_N (N_of_digits ds) in
            Some (if minus then (- e)%Z else e, rest)
        end
      else Some (0%Z, s)
  | [] => Some (0%Z, [])
  end.

(** The digits of a number literal after its sign: 0 or a digit string
    with no leading zero, an optional fraction, an optional exponent. *)
Definition unsigned_number (minus : bool) (s : jsstring) : parse_result number :=
  match s with
  | d :: s2 =>
      if is_digit d then
        let '(ip, s3) := if d =? 48 then ([0], s2) else span_digits s in
        match fraction s3 with
        | Some (fp, s4) =>
            match exponent s4 with
            | Some (e, s5) =>
                Parsed {| neg := minus;
                          coeff := N_of_digits (ip ++ fp);
                          exp10 := e - Z.of_nat (length fp) |} s5
            | None => Reject
            end
        | None => Reject
        end
      else Reject
  | [] => Reject
  end.

(** A number literal: an optional minus, then the digits. *)
Definition number_literal (s : jsstring) : parse_result number :=
  match s with
  | c :: s' => if c =? 45 then unsigned_number true s' else unsigned_number false s
  | [] => Reject
  end.

(** A value, the elements of a non-empty array after its bracket, and the
    members of a non-empty object after its brace. The input of each
    starts at its first token. *)
Fixpoint parse_value (fuel : nat) (s : jsstring) {struct fuel}
  : parse_result json :=
  match fuel with
  | O => OutOfFuel
  | S fuel' =>
      match s with
      | [] => Reject
      | c :: s1 =>
          if c =? 34 then pmap JStr (string_chars s1)
          else if c =? 91 then
            match skip_ws s1 with
            | c2 :: s2 =>
                if c2 =? 93 then Parsed (JArr []) s2
                else pmap JArr (parse_elements fuel' (c2 :: s2))
            | [] => Reject
            end
          else if c =? 123 then
            match skip_ws s1 with
            | c2 :: s2 =>
                if c2 =? 125 then Parsed (JObj []) s2
                else pmap JObj (parse_members fuel' (c2 :: s2))
            | [] => Reject
            end
          else if startsWith s (lit "true") then Parsed (JBool true) (skipn 4 s)
          else if startsWith s (lit "false") then Parsed (JBool false) (skipn 5 s)
          else if startsWith s (lit "null") then Parsed JNull (skipn 4 s)
          else pmap JNum (number_literal s)
      end
  end
with parse_elements (fuel : nat) (s : jsstring) {struct fuel}
  : parse_result (list json) :=
  match fuel with
  | O => OutOfFuel
  | S fuel' =>
      match parse_value fuel' s with
      | Parsed v r =>
          match skip_ws r with
          | c :: r' =>
              if c =? 44 then pmap (cons v) (parse_elements fuel' (skip_ws r'))
              else if c =? 93 then Parsed [v] r'
              else Reject
          | [] => Reject
          end
      | Reject => Reject
      | OutOfFuel => OutOfFuel
      end
  end
with parse_members (fuel : nat) (s : jsstring) {struct fuel}
  : parse_result (list (jsstring * json)) :=
  match fuel with
  | O => OutOfFuel
  | S fuel' =>
      match s with
      | c :: s1 =>
          if c =? 34 then
            match string_chars s1 with
            | Parsed k r =>
                match skip_ws r with
                | c2 :: r2 =>
                    if c2 =? 58 then
                      match parse_value fuel' (skip_ws r2) with
                      | Parsed v r3 =>
                          match skip_ws r3 with
                          | c3 :: r4 =>
                              if c3 =? 44
                              then pmap (cons (k, v))
                                        (parse_members fuel' (skip_ws r4))
                              else if c3 =? 125 then Parsed [(k, v)] r4
                              else Reject
                          | [] => Reject
                          end
                      | Reject => Reject
                      | OutOfFuel => OutOfFuel
                      end
                    else Reject
                | [] => Reject
                end
            | Reject => Reject
            | OutOfFuel => OutOfFuel
            end
          else Reject
      | [] => Reject
      end
  end.

(** Recursion depth the parser is given for a text: more than it can
    use (lemma [parse_fuel]). *)
Definition fuel_for (text : jsstring) : nat := 2 * length text + 1.

(** [JSON.parse(text)]: white space, one value, white space, end. A
    text that is not JSON throws a SyntaxError. *)
Definition parse (text : jsstring) : completion json :=
  match parse_value (fuel_for text) (skip_ws text) with
  | Parsed v rest =>
      match skip_ws rest with
      | [] => Normal v
      | _ :: _ => Throw SyntaxError
      end
  | Reject => Throw SyntaxError
  | OutOfFuel => Throw RangeError
  end.

(** ** The printer *)

Definition hex_digit (d : N) : code_unit := if d <? 10 then 48 + d else 87 + d.

(** [\uXXXX], four lower-case hexadecimal digits. *)
Definition unicode_escape (c : code_unit) : jsstring :=
  [92; 117; hex_digit (c / 4096 mod 16); hex_digit (c / 256 mod 16);
   hex_digit (c / 16 mod 16); hex_digit (c mod 16)].

Definition is_high_surrogate (c : code_unit) : bool := (55296 <=? c) && (c <=? 56319).
Definition is_low_surrogate (c : code_unit) : bool := (56320 <=? c) && (c <=? 57343).

(** One code unit that is not the first half of a surrogate pair. *)
Definition escape_unit (c : code_unit) : jsstring :=
  if c =? 8 then [92; 98]
  else if c =? 9 then [92; 116]
  else if c =? 10 then [92; 110]
  else if c =? 12 then [92; 102]
  else if c =? 13 then [92; 114]
  else if c =? 34 then [92; 34]
  else if c =? 92 then [92; 92]
  else if (c <? 32) || is_high_surrogate c || is_low_surrogate c
       then unicode_escape c
  else [c].

(** The body of QuoteJSONString: code point by code point, a surrogate
    pair is copied, a lone surrogate is escaped. *)
Fixpoint quote_chars (s : jsstring) : jsstring :=
  match s with
  | [] => []
  | c :: s' =>
      if is_high_surrogate c then
        match s' with
        | d :: s'' =>
            if is_low_surrogate d then c :: d :: quote_chars s''
            else unicode_escape c ++ quote_chars s'
        | [] => unicode_escape c
        end
      else escape_unit c ++ quote_chars s'
  end.

Definition QuoteJSONString (s : jsstring) : jsstring :=
  34 :: quote_chars s ++ [34].

Fixpoint uint_chars (d : Decimal.uint) : jsstring :=
  match d with
  | Decimal.Nil => []
  | Decimal.D0 d' => 48 :: uint_chars d'
  | Decimal.D1 d' => 49 :: uint_chars d'
  | Decimal.D2 d' => 50 :: uint_chars d'
  | Decimal.D3 d' => 51 :: uint_chars d'
  | Decimal.D4 d' => 52 :: uint_chars d'
  | Decimal.D5 d' => 53 :: uint_chars d'
  | Decimal.D6 d' => 54 :: uint_chars d'
  | Decimal.D7 d' => 55 :: uint_chars d'
  | Decimal.D8 d' => 56 :: uint_chars d'
  | Decimal.D9 d' => 57 :: uint_chars d'
  end.

(** Number::toString on a natural number below [10^21]: its decimal
    digits. *)
Definition Number_toString (n : N) : jsstring := uint_chars (N.to_uint n).

(** SerializeJSONArray on elements already serialized. *)
Definition print_array (elems : list jsstring) : jsstring :=
  91 :: join [44] elems ++ [93].

(** SerializeJSONObject on properties already serialized, in property
    order; a property whose value is [undefined] ([None]) is left out. *)
Definition print_member (m : jsstring * option jsstring) : list jsstring :=
  match m with
  | (k, Some v) => [QuoteJSONString k ++ 58 :: v]
  | (_, None) => []
  end.

Definition print_object (props : list (jsstring * option jsstring)) : jsstring :=
  123 :: join [44] (flat_map print_member props) ++ [125].

(** ** Reading a parsed value *)

(** [v.k] for [k] one of the names the serializer reads (version, chips,
    label, value), none of which is inherited from a prototype: on
    [null] a TypeError, on an object its last member of that name, on any
    other value [undefined] ([None]). *)
Definition lookup_last (k : jsstring) (ms : list (jsstring * json)) : option json :=
  fold_left (fun acc m => if str_eqb (fst m) k then Some (snd m) else acc) ms None.

Definition get (v : json) (k : jsstring) : completion (option json) :=
  match v with
  | JNull => Throw TypeError
  | JObj ms => Normal (lookup_last k ms)
  | _ => Normal None
  end.

(** ToBoolean *)
Definition ToBoolean (v : json) : bool :=
  match v with
  | JNull => false
  | JBool b => b
  | JNum n => negb (is_zero n)
  | JStr s => truthy_str s
  | JArr _ | JObj _ => true
  end.

(** [typeof x === 'number'] *)
Definition is_number (x : option json) : bool :=
  match x with Some (JNum _) => true | _ => false end.

(** [Array.isArray(x)] *)
Definition isArray (x : option json) : bool :=
  match x with Some (JArr _) => true | _ => false end.

(** [a ?? b] *)
Definition nullish_coalesce (a b : option json) : option json :=
  match a with
  | None | Some JNull => b
  | Some _ => a
  end.

End JSON.

(* ================================================================== *)
(** * [crypto.randomUUID]                                              *)
(* ================================================================== *)

Module Crypto.

Local Open Scope N_scope.

(** Byte [i] of the 128 random bits [r]. *)
Definition byte (r : N) (i : N) : N := N.land (N.shiftr r (8 * i)) 255.

Definition hex2 (b : N) : jsstring :=
  [JSON.hex_digit (N.shiftr b 4); JSON.hex_digit (N.land b 15)].

(** A version 4 UUID from 128 random bits: the version nibble is 4, the
    variant bits are 10, the text is 8-4-4-4-12 lower-case hexadecimal. *)
Definition randomUUID (r : N) : jsstring :=
  let b := byte r in
  let b6 := N.lor (N.land (b 6) 15) 64 in
  let b8 := N.lor (N.land (b 8) 63) 128 in
  hex2 (b 0) ++ hex2 (b 1) ++ hex2 (b 2) ++ hex2 (b 3) ++ [45] ++
  hex2 (b 4) ++ hex2 (b 5) ++ [45] ++
  hex2 b6 ++ hex2 (b 7) ++ [45] ++
  hex2 b8 ++ hex2 (b 9) ++ [45] ++
  hex2 (b 10) ++ hex2 (b 11) ++ hex2 (b 12) ++ hex2 (b 13) ++
  hex2 (b 14) ++ hex2 (b 15).

(** The random source: draw [k] is the 128 bits behind the [k]-th call
    of [crypto.randomUUID()]. *)
Definition entropy := nat -> N.

End Crypto.

(* ================================================================== *)
(** * The [Chip] entity ([src/domain/entities/Chip.ts])                *)
(* ================================================================== *)

(** [interface Chip]: [value], [selected] and [disabled] are optional
    ([None] is [undefined]). *)
Record Chip := mkChip {
  id : jsstring;
  label : jsstring;
  value : option jsstring;
  selected : option bool;
  disabled : option bool
}.

(** [overrides?: Partial<Chip>] *)
Record ChipOverrides := mkOverrides {
  o_id : option jsstring;
  o_value : option jsstring;
  o_selected : option bool;
  o_disabled : option bool
}.

Definition or_else {A} (o : option A) (d : A) : A :=
  match o with Some a => a | None => d end.

(** [createChip(label, overrides)]; [r] is the draw behind the call of
    [crypto.randomUUID()], made only when no id is given. *)
Definition createChip (r : N) (label : jsstring) (overrides : ChipOverrides) : Chip :=
  {| id := match o_id overrides with Some i => i | None => Crypto.randomUUID r end;
     label := label;
     value := Some (or_else (o_value overrides) label);
     selected := Some (or_else (o_selected overrides) false);
     disabled := Some (or_else (o_disabled overrides) false) |}.

(** A truthy [chip.selected]. *)
Definition is_selected (chip : Chip) : bool := or_else (selected chip) false.

(** [{ ...chip, selected: b }] *)
Definition with_selected (b : bool) (chip : Chip) : Chip :=
  {| id := id chip; label := label chip; value := value chip;
     selected := Some b; disabled := disabled chip |}.

(* ================================================================== *)
(** * [ChipClipboardSerializer]                                        *)
(* ================================================================== *)

Module ChipClipboardSerializer.

Import JSON.

(** The element type of [SerializedChipData.chips]. *)
Record SerializedChip := mkSerializedChip {
  s_id : jsstring;
  s_label : jsstring;
  s_value : option jsstring
}.

(** [interface SerializedChipData] *)
Record SerializedChipData := mkData {
  version : N;
  chips : list SerializedChip
}.

Definition CLIPBOARD_MARKER : jsstring := lit "__CHIPINPUT__:".
Definition CLIPBOARD_VERSION : N := 1%N.

(** [JSON.stringify] at the type [SerializedChipData]. *)
Definition stringify_chip (c : SerializedChip) : jsstring :=
  print_object
    [(lit "id", Some (QuoteJSONString (s_id c)));
     (lit "label", Some (QuoteJSONString (s_label c)));
     (lit "value", option_map QuoteJSONString (s_value c))].

Definition stringify (data : SerializedChipData) : jsstring :=
  print_object
    [(lit "version", Some (Number_toString (version data)));
     (lit "chips", Some (print_array (map stringify_chip (chips data))))].

(** [(chip) => ({ id: chip.id, label: chip.label, value: chip.value })] *)
Definition clean (chip : Chip) : SerializedChip :=
  {| s_id := id chip; s_label := label chip; s_value := value chip |}.

(** [static serialize(chips: Chip[]): string] *)
Definition serialize (chips : list Chip) : jsstring :=
  let cleanChips := map clean chips in
  let data := {| version := CLIPBOARD_VERSION; chips := cleanChips |} in
  CLIPBOARD_MARKER ++ stringify data.

(** What [deserialize] hands back at run time: the type annotation
    [Chip[]] is not checked, so [label] and [value] hold whatever the
    payload had there ([None] is [undefined]). *)
Module Raw.
Record Chip := mkChip {
  id : jsstring;
  label : option json;
  value : option json;
  selected : bool;
  disabled : bool
}.
End Raw.

(** The view of a pasted chip at the declared type, when it has one. *)
Definition typed (c : Raw.Chip) : option Chip :=
  match Raw.label c with
  | Some (JStr l) =>
      match Raw.value c with
      | Some (JStr v) =>
          Some (mkChip (Raw.id c) l (Some v) (Some (Raw.selected c)) (Some (Raw.disabled c)))
      | None =>
          Some (mkChip (Raw.id c) l None (Some (Raw.selected c)) (Some (Raw.disabled c)))
      | Some _ => None
      end
  | _ => None
  end.

Fixpoint all_typed (cs : list Raw.Chip) : option (list Chip) :=
  match cs with
  | [] => Some []
  | c :: cs' =>
      match typed c, all_typed cs' with
      | Some c', Some cs'' => Some (c' :: cs'')
      | _, _ => None
      end
  end.

(** What reaches the console. *)
Inductive console_entry :=
| warn_unsupported_version (v : number)
    (* console.warn(`ChipInput: Unsupported clipboard version ${data.version}`) *)
| error_failed_to_parse (e : exn).
    (* console.error('ChipInput: Failed to parse clipboard data', error) *)

(** The result of a call: the returned [Chip[] | null] and the console
    output it made. *)
Record outcome := mkOutcome {
  returned : option (list Raw.Chip);
  console : list console_entry
}.

Definition null : option (list Raw.Chip) := None.

(** The callback of [data.chips.map] in [deserializeChipInputFormat];
    [k] counts the calls of [crypto.randomUUID()] made so far. *)
Definition reconstruct (rng : Crypto.entropy) (k : nat) (chipData : json)
  : completion Raw.Chip :=
  label <- get chipData (lit "label") ;;
  value <- get chipData (lit "value") ;;
  Normal {| Raw.id := Crypto.randomUUID (rng k);
            Raw.label := label;
            Raw.value := nullish_coalesce value label;
            Raw.selected := false;
            Raw.disabled := false |}.

Fixpoint map_reconstruct (rng : Crypto.entropy) (k : nat) (chips : list json)
  : completion (list Raw.Chip) :=
  match chips with
  | [] => Normal []
  | chipData :: rest =>
      c <- reconstruct rng k chipData ;;
      cs <- map_reconstruct rng (S k) rest ;;
      Normal (c :: cs)
  end.

(** The [try] block of [deserializeChipInputFormat]. The three tests of
    the validation are made from left to right, each only if the one
    before it passed; [data.version !== CLIPBOARD_VERSION] is
    [negb (is_one v)]. *)
Definition deserializeChipInputFormat_try (rng : Crypto.entropy)
    (clipboardData : jsstring) : completion outcome :=
  let jsonString := slice_from (length CLIPBOARD_MARKER) clipboardData in
  data <- JSON.parse jsonString ;;
  if negb (ToBoolean data) then Normal (mkOutcome null [])
  else
    version <- get data (lit "version") ;;
    if negb (is_number version) then Normal (mkOutcome null [])
    else
      chips <- get data (lit "chips") ;;
      if negb (isArray chips) then Normal (mkOutcome null [])
      else
        match version, chips with
        | Some (JNum v), Some (JArr elems) =>
            if negb (is_one v)
            then Normal (mkOutcome null [warn_unsupported_version v])
            else
              cs <- map_reconstruct rng 0 elems ;;
              Normal (mkOutcome (Some cs) [])
        | _, _ => Normal (mkOutcome null [])
        end.

(** [private static deserializeChipInputFormat(clipboardData)] *)
Definition deserializeChipInputFormat (rng : Crypto.entropy)
    (clipboardData : jsstring) : completion outcome :=
  Normal (try_catch (deserializeChipInputFormat_try rng clipboardData)
                    (fun error => mkOutcome null [error_failed_to_parse error])).

(** The callback of [labels.map] in [deserializePlainTextFallback]. *)
Fixpoint map_labels (rng : Crypto.entropy) (k : nat) (labels : list jsstring)
  : list Raw.Chip :=
  match labels with
  | [] => []
  | label :: rest =>
      {| Raw.id := Crypto.randomUUID (rng k);
         Raw.label := Some (JStr label);
         Raw.value := Some (JStr label);
         Raw.selected := false;
         Raw.disabled := false |} :: map_labels rng (S k) rest
  end.

(** The [try] block of [deserializePlainTextFallback]. *)
Definition deserializePlainTextFallback_try (rng : Crypto.entropy)
    (clipboardData : jsstring) : completion outcome :=
  let labels :=
    filter (fun label => Nat.ltb 0 (length label))
           (map trim (split 44%N clipboardData)) in
  if Nat.eqb (length labels) 0 then Normal (mkOutcome null [])
  else Normal (mkOutcome (Some (map_labels rng 0 labels)) []).

(** [private static deserializePlainTextFallback(clipboardData)] *)
Definition deserializePlainTextFallback (rng : Crypto.entropy)
    (clipboardData : jsstring) : completion outcome :=
  Normal (try_catch (deserializePlainTextFallback_try rng clipboardData)
                    (fun _ => mkOutcome null [])).

(** [static deserialize(clipboardData: string): Chip[] | null] *)
Definition deserialize (rng : Crypto.entropy) (clipboardData : jsstring)
  : completion outcome :=
  if startsWith clipboardData CLIPBOARD_MARKER
  then deserializeChipInputFormat rng clipboardData
  else deserializePlainTextFallback rng clipboardData.

(** [static toPlainText(chips: Chip[]): string] *)
Definition toPlainText (chips : list Chip) : jsstring :=
  join (lit ", ") (map label chips).

(** [static isChipInputFormat(clipboardData: string): boolean] *)
Definition isChipInputFormat (clipboardData : jsstring) : bool :=
  startsWith clipboardData CLIPBOARD_MARKER.

End ChipClipboardSerializer.

(* ================================================================== *)
(** * The [ChipInput] component                                        *)
(* ================================================================== *)

Module ChipInput.

(** What a handler does to the world outside it, in the order it does
    it. The chip list is the host's: the component only asks for a new
    one through [onChange]. *)
Inductive effect :=
| onChange (chips : list Chip)
| setInputValue (s : jsstring)
| focus_input              (* inputRef.current?.focus() *)
| preventDefault.          (* event.preventDefault() *)

Section Handlers.

(** The props and the state the handlers close over. *)
Variable value : list Chip.
Variable onPaste : option (jsstring -> option (list Chip)).
Variable onAdd : option (jsstring -> option Chip).
Variable separators : list jsstring.
Variable inputValue : jsstring.

Definition selectedChips : list Chip := filter is_selected value.

Definition selectAllChips : list effect :=
  let updatedChips := map (with_selected true) value in
  [onChange updatedChips].

Definition clearSelection : list effect :=
  if Nat.eqb (length selectedChips) 0 then []
  else
    let updatedChips := map (with_selected false) value in
    [onChange updatedChips].

Definition toggleChipSelection (chipId : jsstring) (multiSelect : bool)
  : list effect :=
  let updatedChips :=
    map (fun chip =>
           if str_eqb (id chip) chipId
           then with_selected (negb (is_selected chip)) chip
           else if multiSelect then chip else with_selected false chip)
        value in
  [onChange updatedChips].

Definition removeChips : list effect :=
  if Nat.ltb 0 (length selectedChips) then
    let remainingChips := filter (fun chip => negb (is_selected chip)) value in
    [onChange remainingChips; focus_input]
  else if Nat.ltb 0 (length value) && str_eqb inputValue [] then
    let remainingChips := slice_0_m1 value in
    [onChange remainingChips; focus_input]
  else [].

Definition createChipFromInput : list effect :=
  let trimmedValue := trim inputValue in
  match onAdd with
  | Some add =>
      if negb (truthy_str trimmedValue) then []
      else
        match add trimmedValue with
        | Some newChip =>
            let updatedChips := map (with_selected false) value ++ [newChip] in
            [onChange updatedChips; setInputValue []; focus_input]
        | None => []
        end
  | None => []
  end.

Definition handlePaste (clipboardData : jsstring) : list effect :=
  match onPaste with
  | None => []
  | Some paste =>
      preventDefault ::
      match paste clipboardData with
      | Some newChips =>
          if Nat.ltb 0 (length newChips) then
            let updatedChips := map (with_selected false) value ++ newChips in
            [onChange updatedChips; setInputValue []]
          else []
      | None => []
      end
  end.

(** [newValue[newValue.length - 1]], a string of one code unit or
    [undefined]. *)
Definition lastChar (s : jsstring) : option jsstring :=
  match s with
  | [] => None
  | _ :: _ => Some [last s 0%N]
  end.

(** [separators.includes(c)] *)
Definition includes (l : list jsstring) (c : jsstring) : bool :=
  existsb (str_eqb c) l.

Definition handleInputChange (newValue : jsstring) : list effect :=
  match onAdd with
  | Some add =>
      if Nat.ltb 0 (length separators) then
        match lastChar newValue with
        | Some c =>
            if includes separators c then
              let textWithoutSeparator := trim (slice_0_m1 newValue) in
              if truthy_str textWithoutSeparator then
                match add textWithoutSeparator with
                | Some newChip =>
                    let updatedChips :=
                      map (with_selected false) value ++ [newChip] in
                    [onChange updatedChips; setInputValue []]
                | None => [setInputValue []]
                end
              else [setInputValue []]
            else [setInputValue newValue]
        | None => [setInputValue newValue]
        end
      else [setInputValue newValue]
  | None => [setInputValue newValue]
  end.

Definition handleInputFocus : list effect := clearSelection.

End Handlers.

(** The argument of the last [onChange] among the effects, if any. *)
Definition changed (effects : list effect) : option (list Chip) :=
  fold_left (fun acc e => match e with onChange chips => Some chips | _ => acc end)
            effects None.

(** The chip list after the host has taken every [onChange]. *)
Definition next_value (value : list Chip) (effects : list effect) : list Chip :=
  or_else (changed effects) value.

(** The text of the input field after every [setInputValue]. *)
Definition next_inputValue (inputValue : jsstring) (effects : list effect) : jsstring :=
  fold_left (fun acc e => match e with setInputValue s => s | _ => acc end)
            effects inputValue.

(** The component at one render: its props and its state. *)
Record component := mkComponent {
  value : list Chip;
  onPaste : option (jsstring -> option (list Chip));
  onAdd : option (jsstring -> option Chip);
  separators : list jsstring;
  inputValue : jsstring
}.

(** The requests that reach the chip list. *)
Inductive operation :=
| SelectAll                                     (* Cmd/Ctrl+A *)
| ClearSelection                                (* Escape, focus of the input *)
| ToggleSelection (chipId : jsstring) (multiSelect : bool)  (* click *)
| RemoveSelectedOrLast                          (* Delete, Backspace *)
| CreateFromText                                (* Enter *)
| InputChange (newValue : jsstring)             (* typing, with separators *)
| AppendPasted (clipboardData : jsstring).      (* paste *)

Definition perform (c : component) (op : operation) : list effect :=
  match op with
  | SelectAll => selectAllChips (value c)
  | ClearSelection => clearSelection (value c)
  | ToggleSelection chipId multiSelect =>
      toggleChipSelection (value c) chipId multiSelect
  | RemoveSelectedOrLast => removeChips (value c) (inputValue c)
  | CreateFromText => createChipFromInput (value c) (onAdd c) (inputValue c)
  | InputChange newValue =>
      handleInputChange (value c) (onAdd c) (separators c) newValue
  | AppendPasted clipboardData => handlePaste (value c) (onPaste c) clipboardData
  end.

(** The chips the host's callbacks hand over during an operation: the
    one [onAdd] made of the text, or the ones [onPaste] made of the
    clipboard. *)
Definition supplied (c : component) (op : operation) : list Chip :=
  match op with
  | CreateFromText =>
      match onAdd c with
      | Some add => match add (trim (inputValue c)) with
                    | Some chip => [chip] | None => [] end
      | None => []
      end
  | InputChange newValue =>
      match onAdd c with
      | Some add => match add (trim (slice_0_m1 newValue)) with
                    | Some chip => [chip] | None => [] end
      | None => []
      end
  | AppendPasted clipboardData =>
      match onPaste c with
      | Some paste => or_else (paste clipboardData) []
      | None => []
      end
  | _ => []
  end.

End ChipInput.

(* ================================================================== *)
(** * Vocabulary of the properties                                     *)
(* ================================================================== *)

(** [l1] is [l2] with some elements left out, the others in order. *)
Inductive subsequence {A : Type} : list A -> list A -> Prop :=
| subsequence_nil : subsequence [] []
| subsequence_keep x l1 l2 : subsequence l1 l2 -> subsequence (x :: l1) (x :: l2)
| subsequence_drop x l1 l2 : subsequence l1 l2 -> subsequence l1 (x :: l2).

(** The same chip up to its [selected] flag. *)
Definition same_but_selected (c r : Chip) : Prop :=
  id r = id c /\ label r = label c /\ value r = value c /\ disabled r = disabled c.

(** The list the host holds after a click on the chip [chipId]
    ([toggleSelection] of the specification). *)
Definition toggleSelection (L : list Chip) (chipId : jsstring) (multiSelect : bool)
  : list Chip :=
  ChipInput.next_value L (ChipInput.toggleChipSelection L chipId multiSelect).

(** The list the host holds after Delete or Backspace, the input field
    holding [inputValue] ([removeSelectedOrLast] of the specification,
    whose [hasInputText] is [inputValue <> '']). *)
Definition removeSelectedOrLast (L : list Chip) (inputValue : jsstring) : list Chip :=
  ChipInput.next_value L (ChipInput.removeChips L inputValue).

(** The JSON value a [SerializedChipData] stands for: what [JSON.parse]
    is to make of its [JSON.stringify]. *)
Definition json_of_chip (c : ChipClipboardSerializer.SerializedChip) : JSON.json :=
  JSON.JObj
    ((lit "id", JSON.JStr (ChipClipboardSerializer.s_id c)) ::
     (lit "label", JSON.JStr (ChipClipboardSerializer.s_label c)) ::
     match ChipClipboardSerializer.s_value c with
     | Some v => [(lit "value", JSON.JStr v)]
     | None => []
     end).

Definition json_of_data (d : ChipClipboardSerializer.SerializedChipData) : JSON.json :=
  JSON.JObj
    [(lit "version", JSON.JNum (JSON.mkNumber false (ChipClipboardSerializer.version d) 0));
     (lit "chips", JSON.JArr (map json_of_chip (ChipClipboardSerializer.chips d)))].

(** What may follow a value inside a text: the end, a comma, a closing
    bracket or a closing brace. *)
Definition delimited (r : jsstring) : Prop :=
  match r with
  | [] => True
  | c :: _ => c = 44%N \/ c = 93%N \/ c = 125%N
  end.

(** [text] is a serialization of [v] that the parser reads back with
    recursion depth [depth]: it starts at a token, and before any
    delimited rest the parser reads [v] and stops at the rest. *)
Definition reads_back (depth : nat) (text : jsstring) (v : JSON.json) : Prop :=
  forall (fuel : nat) (r : jsstring),
    depth <= fuel -> delimited r ->
    JSON.skip_ws (text ++ r) = text ++ r
    /\ JSON.parse_value fuel (text ++ r) = JSON.Parsed v r.

(** One member of an object as it is written and read: its name, the
    text of its value and the value. *)
Definition member_text (m : jsstring * jsstring * JSON.json) : jsstring :=
  JSON.QuoteJSONString (fst (fst m)) ++ 58%N :: snd (fst m).

Definition member_value (m : jsstring * jsstring * JSON.json) : jsstring * JSON.json :=
  (fst (fst m), snd m).

Definition chip_members (c : ChipClipboardSerializer.SerializedChip)
  : list (jsstring * jsstring * JSON.json) :=
  (lit "id", JSON.QuoteJSONString (ChipClipboardSerializer.s_id c),
   JSON.JStr (ChipClipboardSerializer.s_id c)) ::
  (lit "label", JSON.QuoteJSONString (ChipClipboardSerializer.s_label c),
   JSON.JStr (ChipClipboardSerializer.s_label c)) ::
  match ChipClipboardSerializer.s_value c with
  | Some v => [(lit "value", JSON.QuoteJSONString v, JSON.JStr v)]
  | None => []
  end.

(** The chips a paste of serialized chips gives: ids drawn afresh from
    draw [k] on, label and value (or the label for a missing value) as
    serialized. *)
Fixpoint reconstructed (rng : Crypto.entropy) (k : nat)
    (cs : list ChipClipboardSerializer.SerializedChip)
  : list ChipClipboardSerializer.Raw.Chip :=
  match cs with
  | [] => []
  | c :: cs' =>
      ChipClipboardSerializer.Raw.mkChip
        (Crypto.randomUUID (rng k))
        (Some (JSON.JStr (ChipClipboardSerializer.s_label c)))
        (Some (JSON.JStr (or_else (ChipClipboardSerializer.s_value c)
                                  (ChipClipboardSerializer.s_label c))))
        false false
      :: reconstructed rng (S k) cs'
  end.

(** The ids of [n] chips pasted in one call. *)
Definition fresh_ids (rng : Crypto.entropy) (n : nat) : list jsstring :=
  map (fun k => Crypto.randomUUID (rng k)) (seq 0 n).

(** What follows the marker. *)
Definition payload (clipboardData : jsstring) : jsstring :=
  slice_from (length ChipClipboardSerializer.CLIPBOARD_MARKER) clipboardData.

(** The structured format of the specification: the parsed value is a
    mapping whose [version] is a number and whose [chips] is a list. *)
Definition structured (data : JSON.json) : option (JSON.number * list JSON.json) :=
  match data with
  | JSON.JObj ms =>
      match JSON.lookup_last (lit "version") ms, JSON.lookup_last (lit "chips") ms with
      | Some (JSON.JNum v), Some (JSON.JArr elems) => Some (v, elems)
      | _, _ => None
      end
  | _ => None
  end.

(** The payload is well-formed JSON of the expected shape, and its
    version [v] is a number other than 1. *)
Definition unsupported_version (clipboardData : jsstring) (v : JSON.number) : Prop :=
  exists data elems,
    JSON.parse (payload clipboardData) = Normal data
    /\ structured data = Some (v, elems)
    /\ JSON.is_one v = false.

(** A string that has no white space at either end. *)
Definition trimmed (t : jsstring) : Prop :=
  (forall c t', t = c :: t' -> isWhiteSpace c = false)
  /\ (forall c t', t = t' ++ [c] -> isWhiteSpace c = false).

(** The reconstructed chips at their declared type. *)
Fixpoint pasted_chips (rng : Crypto.entropy) (k : nat)
    (cs : list ChipClipboardSerializer.SerializedChip) : list Chip :=
  match cs with
  | [] => []
  | c :: cs' =>
      mkChip (Crypto.randomUUID (rng k)) (ChipClipboardSerializer.s_label c)
             (Some (or_else (ChipClipboardSerializer.s_value c)
                            (ChipClipboardSerializer.s_label c)))
             (Some false) (Some false)
      :: pasted_chips rng (S k) cs'
  end.

(** The non-empty trimmed pieces of a comma-separated text. *)
Definition plain_labels (s : jsstring) : list jsstring :=
  filter (fun l => negb (str_eqb l [])) (map trim (split 44%N s)).

(** A text written with apostrophes where it has double quotes. *)
Definition json_text (s : string) : jsstring :=
  map (fun c => if N.eqb c 39 then 34%N else c) (lit s).

(* ================================================================== *)
(** * The events of the component ([ChipInput.tsx], the dispatchers)   *)
(* ================================================================== *)

Module ChipInputEvents.

Import ChipInput.

(** The fields of a keyboard or mouse event that the handlers read. *)
Record KeyboardEvent := mkEvent {
  key : jsstring;
  metaKey : bool;
  ctrlKey : bool
}.

(** What an event handler does: an effect of one of the callbacks above,
    a call of the [onCopy] prop, or [e.stopPropagation()]. *)
Inductive action :=
| Effect (e : effect)
| Copy (chips : list Chip)
| stopPropagation.

Definition effects (l : list effect) : list action := map Effect l.

Section Dispatch.

(** The props and the state the handlers close over; [onCopy] tells
    whether the optional prop is given. *)
Variable value : list Chip.
Variable onCopy : bool.
Variable onAdd : option (jsstring -> option Chip).
Variable inputValue : jsstring.

(** [onKeyDown] of the container. *)
Definition handleKeyDown (event : KeyboardEvent) : list action :=
  let isCmdOrCtrl := metaKey event || ctrlKey event in
  if isCmdOrCtrl && str_eqb (key event) (lit "a") then
    Effect preventDefault :: effects (selectAllChips value)
  else if isCmdOrCtrl && str_eqb (key event) (lit "c")
          && Nat.ltb 0 (length (selectedChips value)) then
    Effect preventDefault :: (if onCopy then [Copy (selectedChips value)] else [])
  else if isCmdOrCtrl && str_eqb (key event) (lit "v") then
    []
  else if str_eqb (key event) (lit "Backspace") || str_eqb (key event) (lit "Delete") then
    Effect preventDefault :: effects (removeChips value inputValue)
  else if str_eqb (key event) (lit "Escape") then
    Effect preventDefault :: effects (clearSelection value)
  else [].



(** [onKeyDown] of the text input. *)
Definition handleInputKeyDown (event : KeyboardEvent) : list action :=
  if str_eqb (key event) (lit "Enter") then
    Effect preventDefault :: effects (createChipFromInput value onAdd inputValue)
  else if str_eqb (key event) (lit "Backspace") && str_eqb inputValue [] then
    if Nat.ltb 0 (length value) || Nat.ltb 0 (length (selectedChips value)) then
      Effect preventDefault :: effects (removeChips value inputValue)
    else []
  else if str_eqb (key event) (lit "Escape") then
    Effect preventDefault :: Effect (setInputValue []) :: effects (clearSelection value)
  else [].

(** A key pressed in the text input. The input is a child of the
    container and neither handler stops the propagation: the event runs
    [handleInputKeyDown], then bubbles to [handleKeyDown], both closed
    over the props and the state of the same render. *)
Definition input_keydown (event : KeyboardEvent) : list action :=
  handleInputKeyDown event ++ handleKeyDown event.

End Dispatch.

(** The callback effects among the actions of a handler. *)
Fixpoint callback_effects (l : list action) : list effect :=
  match l with
  | [] => []
  | Effect e :: l' => e :: callback_effects l'
  | _ :: l' => callback_effects l'
  end.


End ChipInputEvents.

(* ================================================================== *)
(** * The demo application ([App.tsx], the callbacks it passes)        *)
(* ================================================================== *)

Module App.

Import ChipClipboardSerializer.

(** What a callback of the application does besides returning. *)
Inductive effect :=
| writeText (text : jsstring)   (* navigator.clipboard.writeText(text) *)
| addLog (message : jsstring).

(** [`${n}`] for a length. *)
Definition count (n : nat) : jsstring := JSON.Number_toString (N.of_nat n).

(** [handleCopy(selectedChips)] *)
Definition handleCopy (selectedChips : list Chip) : list effect :=
  let serialized := serialize selectedChips in
  [writeText serialized;
   addLog (lit "Copied " ++ count (length selectedChips)
           ++ lit " chip(s) to clipboard (ChipInput format)")].

(** The result of [handlePaste]: what it returns, what it logs, and what
    [deserialize] printed on the console. *)
Record pasted := mkPasted {
  chips : option (list Raw.Chip);
  logged : list effect;
  printed : list console_entry
}.

(** [handlePaste(data)] *)
Definition handlePaste (rng : Crypto.entropy) (data : jsstring) : completion pasted :=
  o <- deserialize rng data ;;
  match returned o with
  | Some chips =>
      let isChipInputFormat := isChipInputFormat data in
      Normal (mkPasted (Some chips)
                [addLog (lit "Pasted " ++ count (length chips) ++ lit " chip(s) ("
                         ++ (if isChipInputFormat then lit "ChipInput format"
                             else lit "plain text fallback")
                         ++ lit ")")]
                (console o))
  | None =>
      Normal (mkPasted None [addLog (lit "Paste failed: invalid format")] (console o))
  end.

(** [handleAdd(text)]; [r] is the draw behind [createChip]'s call of
    [crypto.randomUUID()]. *)
Definition handleAdd (r : N) (text : jsstring) : option Chip * list effect :=
  let trimmed := trim text in
  if negb (truthy_str trimmed) then (None, [])
  else
    let newChip := createChip r trimmed (mkOverrides None None None None) in
    (Some newChip, [addLog (lit "Created chip: " ++ 34%N :: trimmed ++ [34%N])]).

End App.

(** The chips a structured paste rebuilds from the elements of the
    [chips] array, ids drawn from draw [k] on: the label member, and the
    value member or, when that is missing or [null], the label. *)
Definition member (e : JSON.json) (k : jsstring) : option JSON.json :=
  match e with
  | JSON.JObj ms => JSON.lookup_last k ms
  | _ => None
  end.

Fixpoint rebuilt (rng : Crypto.entropy) (k : nat) (elems : list JSON.json)
  : list ChipClipboardSerializer.Raw.Chip :=
  match elems with
  | [] => []
  | e :: elems' =>
      ChipClipboardSerializer.Raw.mkChip
        (Crypto.randomUUID (rng k))
        (member e (lit "label"))
        (JSON.nullish_coalesce (member e (lit "value")) (member e (lit "label")))
        false false
      :: rebuilt rng (S k) elems'
  end.

(** A callback that calls [onChange] at most once: all its calls carry
    the same list. *)
Definition calls_onChange_once (E : list ChipInput.effect) : Prop :=
  forall R1 R2, In (ChipInput.onChange R1) E -> In (ChipInput.onChange R2) E -> R1 = R2.

(** The value a chip has after a copy and a paste: its own, or its label
    when it has none. *)
Definition pasted_value (c : Chip) : option jsstring :=
  Some (or_else (value c) (label c)).

Unset Implicit Arguments.

(* ================================================================== *)
(** * Properties of the JSON functions                                 *)
(* ================================================================== *)

Module JSONFacts.
Import JSON.
Local Open Scope N_scope.

(** ** The parser never needs more recursion depth than it is given *)

Lemma skip_ws_length (s : jsstring) : (length (skip_ws s) <= length s)%nat.
Proof.
  induction s as [|c s IH]; simpl; [lia|].
  destruct (is_ws c); simpl; lia.
Qed.

Lemma pmap_Parsed {A B} (f : A -> B) (r : parse_result A) b rest :
  pmap f r = Parsed b rest -> exists a, r = Parsed a rest /\ b = f a.
Proof. destruct r; simpl; intros H; inversion H; eauto. Qed.

Lemma pmap_OutOfFuel {A B} (f : A -> B) (r : parse_result A) :
  pmap f r = OutOfFuel -> r = OutOfFuel.
Proof. destruct r; simpl; intros H; congruence. Qed.

Lemma string_chars_length (s : jsstring) :
  forall a r, string_chars s = Parsed a r -> (length r < length s)%nat.
Proof.
  assert (G : forall n s, (length s <= n)%nat ->
              forall a r, string_chars s = Parsed a r -> (length r < length s)%nat).
  { induction n as [|n IH]; intros s0 Hn a r H.
    - destruct s0; [discriminate H|simpl in Hn; lia].
    - destruct s0 as [|c s1]; [discriminate H|]. simpl in H. simpl in Hn.
      destruct (c =? 34).
      + injection H as _ <-. simpl. lia.
      + destruct (c =? 92).
        * destruct s1 as [|e s2]; [discriminate H|]. simpl in Hn.
          destruct (e =? 117).
          -- destruct s2 as [|h1 [|h2 [|h3 [|h4 s3]]]]; try discriminate H.
             destruct (hex4 h1 h2 h3 h4); [|discriminate H].
             apply pmap_Parsed in H as [a' [H _]].
             apply IH in H; simpl in *; lia.
          -- destruct (unescape e); [|discriminate H].
             apply pmap_Parsed in H as [a' [H _]].
             apply IH in H; simpl in *; lia.
        * destruct (c <? 32); [discriminate H|].
          apply pmap_Parsed in H as [a' [H _]].
          apply IH in H; simpl in *; lia. }
  intros a r H. eapply G; [reflexivity|exact H].
Qed.

Lemma string_chars_fuel (s : jsstring) : string_chars s <> OutOfFuel.
Proof.
  assert (G : forall n s, (length s <= n)%nat -> string_chars s <> OutOfFuel).
  { induction n as [|n IH]; intros s0 Hn H.
    - destruct s0; [discriminate H|simpl in Hn; lia].
    - destruct s0 as [|c s1]; [discriminate H|]. simpl in H. simpl in Hn.
      destruct (c =? 34); [discriminate H|].
      destruct (c =? 92).
      + destruct s1 as [|e s2]; [discriminate H|]. simpl in Hn.
        destruct (e =? 117).
        * destruct s2 as [|h1 [|h2 [|h3 [|h4 s3]]]]; try discriminate H.
          destruct (hex4 h1 h2 h3 h4); [|discriminate H].
          apply pmap_OutOfFuel in H. apply IH in H; [exact H|simpl in *; lia].
        * destruct (unescape e); [|discriminate H].
          apply pmap_OutOfFuel in H. apply IH in H; [exact H|simpl in *; lia].
      + destruct (c <? 32); [discriminate H|].
        apply pmap_OutOfFuel in H. apply IH in H; [exact H|lia]. }
  eapply G. reflexivity.
Qed.

Lemma span_digits_length (s : jsstring) :
  (length (snd (span_digits s)) <= length s)%nat.
Proof.
  induction s as [|c s IH]; simpl; [lia|].
  destruct (is_digit c); simpl; [|lia].
  destruct (span_digits s) as [ds rest]. simpl in *. lia.
Qed.

Lemma fraction_length (s : jsstring) fp r :
  fraction s = Some (fp, r) -> (length r <= length s)%nat.
Proof.
  unfold fraction. destruct s as [|c s]; [intros [= <- <-]; simpl; lia|].
  destruct (c =? 46).
  - pose proof (span_digits_length s) as L.
    destruct (span_digits s) as [[|d ds] rest]; [discriminate|].
    intros [= <- <-]. simpl in *. lia.
  - intros [= <- <-]. lia.
Qed.

Lemma exponent_length (s : jsstring) e r :
  exponent s = Some (e, r) -> (length r <= length s)%nat.
Proof.
  unfold exponent. destruct s as [|c s]; [intros [= <- <-]; simpl; lia|].
  destruct ((c =? 101) || (c =? 69)).
  - destruct s as [|g t].
    + simpl. discriminate.
    + destruct (g =? 45); [|destruct (g =? 43)].
      * pose proof (span_digits_length t) as L.
        destruct (span_digits t) as [[|d ds] rest]; [discriminate|].
        intros [= <- <-]. simpl in *. lia.
      * pose proof (span_digits_length t) as L.
        destruct (span_digits t) as [[|d ds] rest]; [discriminate|].
        intros [= <- <-]. simpl in *. lia.
      * pose proof (span_digits_length (g :: t)) as L.
        destruct (span_digits (g :: t)) as [[|d ds] rest]; [discriminate|].
        intros [= <- <-]. simpl in *. lia.
  - intros [= <- <-]. lia.
Qed.

Lemma unsigned_number_length (minus : bool) (s : jsstring) n r :
  unsigned_number minus s = Parsed n r -> (length r <= length s)%nat.
Proof.
  unfold unsigned_number. destruct s as [|d s2]; [discriminate|].
  destruct (is_digit d); [|discriminate].
  assert (L3 : forall ip s3,
             (if d =? 48 then ([0], s2) else span_digits (d :: s2)) = (ip, s3) ->
             (length s3 <= length (d :: s2))%nat).
  { intros ip s3 E. destruct (d =? 48).
    - injection E as _ <-. simpl. lia.
    - pose proof (span_digits_length (d :: s2)) as L. rewrite E in L. exact L. }
  destruct (if d =? 48 then ([0], s2) else span_digits (d :: s2)) as [ip s3].
  specialize (L3 ip s3 eq_refl).
  destruct (fraction s3) as [[fp s4]|] eqn:Ef; [|discriminate].
  apply fraction_length in Ef.
  destruct (exponent s4) as [[e s5]|] eqn:Ee; [|discriminate].
  apply exponent_length in Ee.
  intros [= _ <-]. lia.
Qed.

Lemma number_literal_length (s : jsstring) n r :
  number_literal s = Parsed n r -> (length r <= length s)%nat.
Proof.
  unfold number_literal. destruct s as [|c s']; [discriminate|].
  destruct (c =? 45); intros H; apply unsigned_number_length in H; simpl in *; lia.
Qed.

Lemma unsigned_number_fuel (minus : bool) (s : jsstring) :
  unsigned_number minus s <> OutOfFuel.
Proof.
  unfold unsigned_number.
  destruct s as [|d s2]; [discriminate|].
  destruct (is_digit d); [|discriminate].
  destruct (if d =? 48 then ([0], s2) else span_digits (d :: s2)) as [ip s3].
  destruct (fraction s3) as [[fp s4]|]; [|discriminate].
  destruct (exponent s4) as [[e s5]|]; discriminate.
Qed.

Lemma number_literal_fuel (s : jsstring) : number_literal s <> OutOfFuel.
Proof.
  unfold number_literal. destruct s as [|c s']; [discriminate|].
  destruct (c =? 45); apply unsigned_number_fuel.
Qed.

(** What is left after a value, the elements or the members is no longer
    than the input. *)
Lemma parse_length (fuel : nat) :
  (forall s v r, parse_value fuel s = Parsed v r -> (length r <= length s)%nat)
  /\ (forall s v r, parse_elements fuel s = Parsed v r -> (length r <= length s)%nat)
  /\ (forall s v r, parse_members fuel s = Parsed v r -> (length r <= length s)%nat).
Proof.
  induction fuel as [|fuel (IHv & IHe & IHm)];
    [repeat split; intros s v r H; discriminate H|].
  split; [|split]; intros s v r H.
  - (* parse_value *)
    cbn [parse_value parse_elements parse_members] in H. destruct s as [|c s1]; [discriminate H|].
    destruct (c =? 34).
    { apply pmap_Parsed in H as [a [H _]].
      apply string_chars_length in H. simpl. lia. }
    destruct (c =? 91).
    { pose proof (skip_ws_length s1) as L.
      destruct (skip_ws s1) as [|c2 s2]; [discriminate H|].
      destruct (c2 =? 93).
      - injection H as _ <-. simpl in *. lia.
      - apply pmap_Parsed in H as [a [H _]]. apply IHe in H. simpl in *. lia. }
    destruct (c =? 123).
    { pose proof (skip_ws_length s1) as L.
      destruct (skip_ws s1) as [|c2 s2]; [discriminate H|].
      destruct (c2 =? 125).
      - injection H as _ <-. simpl in *. lia.
      - apply pmap_Parsed in H as [a [H _]]. apply IHm in H. simpl in *. lia. }
    destruct (startsWith (c :: s1) (lit "true")).
    { injection H as _ <-. clear. destruct s1 as [|? [|? [|? [|? ?]]]]; simpl; lia. }
    destruct (startsWith (c :: s1) (lit "false")).
    { injection H as _ <-. clear. destruct s1 as [|? [|? [|? [|? ?]]]]; simpl; lia. }
    destruct (startsWith (c :: s1) (lit "null")).
    { injection H as _ <-. clear. destruct s1 as [|? [|? [|? [|? ?]]]]; simpl; lia. }
    apply pmap_Parsed in H as [a [H _]].
    apply number_literal_length in H. exact H.
  - (* parse_elements *)
    cbn [parse_value parse_elements parse_members] in H.
    destruct (parse_value fuel s) as [v0 r0| |] eqn:Ev; try discriminate H.
    apply IHv in Ev. pose proof (skip_ws_length r0) as L.
    destruct (skip_ws r0) as [|c r']; [discriminate H|].
    destruct (c =? 44).
    + apply pmap_Parsed in H as [a [H _]]. apply IHe in H.
      pose proof (skip_ws_length r'). simpl in *. lia.
    + destruct (c =? 93); [|discriminate H].
      injection H as _ <-. simpl in *. lia.
  - (* parse_members *)
    cbn [parse_value parse_elements parse_members] in H. destruct s as [|c s1]; [discriminate H|].
    destruct (c =? 34); [|discriminate H].
    destruct (string_chars s1) as [k r0| |] eqn:Ek; try discriminate H.
    apply string_chars_length in Ek. pose proof (skip_ws_length r0) as L0.
    destruct (skip_ws r0) as [|c2 r2]; [discriminate H|].
    destruct (c2 =? 58); [|discriminate H].
    destruct (parse_value fuel (skip_ws r2)) as [v0 r3| |] eqn:Ev; try discriminate H.
    apply IHv in Ev. pose proof (skip_ws_length r2) as L2.
    pose proof (skip_ws_length r3) as L3.
    destruct (skip_ws r3) as [|c3 r4]; [discriminate H|].
    destruct (c3 =? 44).
    + apply pmap_Parsed in H as [a [H _]]. apply IHm in H.
      pose proof (skip_ws_length r4). simpl in *. lia.
    + destruct (c3 =? 125); [|discriminate H].
      injection H as _ <-. simpl in *. lia.
Qed.

(** With recursion depth above twice the length of the input, the parser
    never runs out of it. *)
Lemma parse_fuel (fuel : nat) :
  (forall s, (2 * length s < fuel)%nat -> parse_value fuel s <> OutOfFuel)
  /\ (forall s, (2 * length s + 1 < fuel)%nat -> parse_elements fuel s <> OutOfFuel)
  /\ (forall s, (2 * length s + 1 < fuel)%nat -> parse_members fuel s <> OutOfFuel).
Proof.
  induction fuel as [|fuel (IHv & IHe & IHm)];
    [repeat split; intros s L; lia|].
  destruct (parse_length fuel) as (Lv & Le & Lm).
  split; [|split]; intros s L H.
  - (* parse_value *)
    cbn [parse_value parse_elements parse_members] in H. destruct s as [|c s1]; [discriminate H|]. simpl in L.
    destruct (c =? 34).
    { apply pmap_OutOfFuel in H. exact (string_chars_fuel _ H). }
    destruct (c =? 91).
    { pose proof (skip_ws_length s1) as L1.
      destruct (skip_ws s1) as [|c2 s2]; [discriminate H|].
      destruct (c2 =? 93); [discriminate H|].
      apply pmap_OutOfFuel in H. revert H. apply IHe. simpl in *. lia. }
    destruct (c =? 123).
    { pose proof (skip_ws_length s1) as L1.
      destruct (skip_ws s1) as [|c2 s2]; [discriminate H|].
      destruct (c2 =? 125); [discriminate H|].
      apply pmap_OutOfFuel in H. revert H. apply IHm. simpl in *. lia. }
    destruct (startsWith (c :: s1) (lit "true")); [discriminate H|].
    destruct (startsWith (c :: s1) (lit "false")); [discriminate H|].
    destruct (startsWith (c :: s1) (lit "null")); [discriminate H|].
    apply pmap_OutOfFuel in H. exact (number_literal_fuel _ H).
  - (* parse_elements *)
    cbn [parse_value parse_elements parse_members] in H.
    destruct (parse_value fuel s) as [v0 r0| |] eqn:Ev; try discriminate H.
    + apply Lv in Ev. pose proof (skip_ws_length r0) as L0.
      destruct (skip_ws r0) as [|c r']; [discriminate H|].
      destruct (c =? 44).
      * apply pmap_OutOfFuel in H. revert H. apply IHe.
        pose proof (skip_ws_length r'). simpl in *. lia.
      * destruct (c =? 93); discriminate H.
    + revert Ev. apply IHv. lia.
  - (* parse_members *)
    cbn [parse_value parse_elements parse_members] in H. destruct s as [|c s1]; [discriminate H|]. simpl in L.
    destruct (c =? 34); [|discriminate H].
    destruct (string_chars s1) as [k r0| |] eqn:Ek; try discriminate H.
    + apply string_chars_length in Ek. pose proof (skip_ws_length r0) as L0.
      destruct (skip_ws r0) as [|c2 r2]; [discriminate H|].
      destruct (c2 =? 58); [|discriminate H].
      pose proof (skip_ws_length r2) as L2.
      destruct (parse_value fuel (skip_ws r2)) as [v0 r3| |] eqn:Ev; try discriminate H.
      * apply Lv in Ev. pose proof (skip_ws_length r3) as L3.
        destruct (skip_ws r3) as [|c3 r4]; [discriminate H|].
        destruct (c3 =? 44).
        -- apply pmap_OutOfFuel in H. revert H. apply IHm.
           pose proof (skip_ws_length r4). simpl in *. lia.
        -- destruct (c3 =? 125); discriminate H.
      * revert Ev. apply IHv. simpl in *. lia.
    + exact (string_chars_fuel _ Ek).
Qed.

(** [JSON.parse] decides every text: it returns a value or throws a
    SyntaxError. *)
Lemma parse_decides (text : jsstring) :
  (exists v, parse text = Normal v) \/ parse text = Throw SyntaxError.
Proof.
  unfold parse.
  destruct (parse_value (fuel_for text) (skip_ws text)) as [v r| |] eqn:E.
  - destruct (skip_ws r); eauto.
  - right. reflexivity.
  - exfalso. revert E. apply (proj1 (parse_fuel (fuel_for text))).
    unfold fuel_for. pose proof (skip_ws_length text). lia.
Qed.

(** ** [JSON.parse] reads back what [JSON.stringify] writes *)

Ltac N_compare :=
  repeat match goal with
         | |- context [N.eqb ?a ?b] => destruct (N.eqb_spec a b)
         | |- context [N.leb ?a ?b] => destruct (N.leb_spec a b)
         | |- context [N.ltb ?a ?b] => destruct (N.ltb_spec a b)
         | H : context [N.eqb ?a ?b] |- _ => destruct (N.eqb_spec a b)
         | H : context [N.leb ?a ?b] |- _ => destruct (N.leb_spec a b)
         | H : context [N.ltb ?a ?b] |- _ => destruct (N.ltb_spec a b)
         end.

Lemma hex_val_hex_digit (d : N) : d < 16 -> hex_val (hex_digit d) = Some d.
Proof.
  intros Hd. unfold hex_val, hex_digit, is_digit.
  N_compare; cbn [andb orb]; try lia; f_equal; lia.
Qed.

Lemma hex4_unicode_escape (c : code_unit) :
  c < 65536 ->
  hex4 (hex_digit (c / 4096 mod 16)) (hex_digit (c / 256 mod 16))
       (hex_digit (c / 16 mod 16)) (hex_digit (c mod 16)) = Some c.
Proof.
  intros Hc. unfold hex4.
  rewrite !hex_val_hex_digit by (apply N.mod_lt; lia).
  f_equal.
  pose proof (N.div_mod c 16 ltac:(lia)) as E0.
  pose proof (N.div_mod (c / 16) 16 ltac:(lia)) as E1.
  pose proof (N.div_mod (c / 256) 16 ltac:(lia)) as E2.
  assert (E16 : c / 256 = c / 16 / 16) by (rewrite N.Div0.div_div; reflexivity).
  assert (E4096 : c / 4096 = c / 256 / 16) by (rewrite N.Div0.div_div; reflexivity).
  assert (Hsmall : c / 4096 < 16) by (apply N.Div0.div_lt_upper_bound; lia).
  rewrite (N.mod_small (c / 4096) 16 Hsmall).
  pose proof (N.div_mod (c / 256) 16 ltac:(lia)) as E3.
  rewrite <- E4096 in E3. rewrite <- E16 in E1.
  lia.
Qed.

Lemma string_chars_unicode_escape (c : code_unit) (r : jsstring) :
  c < 65536 ->
  string_chars (unicode_escape c ++ r) = pmap (cons c) (string_chars r).
Proof.
  intros Hc. unfold unicode_escape. simpl.
  rewrite (hex4_unicode_escape c Hc). reflexivity.
Qed.

Lemma string_chars_plain (c : code_unit) (r : jsstring) :
  c <> 34 -> c <> 92 -> 32 <= c ->
  string_chars (c :: r) = pmap (cons c) (string_chars r).
Proof.
  intros H1 H2 H3. simpl. N_compare; try lia. reflexivity.
Qed.

Lemma string_chars_escape_unit (c : code_unit) (r : jsstring) :
  is_high_surrogate c = false ->
  string_chars (escape_unit c ++ r) = pmap (cons c) (string_chars r).
Proof.
  intros Hh. unfold escape_unit.
  destruct (N.eqb_spec c 8) as [->|N8]; [reflexivity|].
  destruct (N.eqb_spec c 9) as [->|N9]; [reflexivity|].
  destruct (N.eqb_spec c 10) as [->|N10]; [reflexivity|].
  destruct (N.eqb_spec c 12) as [->|N12]; [reflexivity|].
  destruct (N.eqb_spec c 13) as [->|N13]; [reflexivity|].
  destruct (N.eqb_spec c 34) as [->|N34]; [reflexivity|].
  destruct (N.eqb_spec c 92) as [->|N92]; [reflexivity|].
  rewrite Hh, orb_false_r.
  destruct (N.ltb_spec c 32) as [L32|G32].
  - simpl orb. apply string_chars_unicode_escape. lia.
  - simpl orb. destruct (is_low_surrogate c) eqn:El.
    + apply string_chars_unicode_escape.
      unfold is_low_surrogate in El. apply andb_true_iff in El as [_ El].
      apply N.leb_le in El. lia.
    + apply string_chars_plain; assumption.
Qed.

Lemma high_surrogate_plain (c : code_unit) :
  is_high_surrogate c = true -> c <> 34 /\ c <> 92 /\ 32 <= c /\ c < 65536.
Proof.
  unfold is_high_surrogate. intros H. apply andb_true_iff in H as [H1 H2].
  apply N.leb_le in H1, H2. lia.
Qed.

Lemma low_surrogate_plain (c : code_unit) :
  is_low_surrogate c = true -> c <> 34 /\ c <> 92 /\ 32 <= c.
Proof.
  unfold is_low_surrogate. intros H. apply andb_true_iff in H as [H1 H2].
  apply N.leb_le in H1, H2. lia.
Qed.

Lemma quote_chars_cons (c : code_unit) (s' : jsstring) :
  quote_chars (c :: s') =
  if is_high_surrogate c then
    match s' with
    | d :: s'' =>
        if is_low_surrogate d then c :: d :: quote_chars s''
        else unicode_escape c ++ quote_chars s'
    | [] => unicode_escape c
    end
  else escape_unit c ++ quote_chars s'.
Proof. reflexivity. Qed.

(** Reading the characters [QuoteJSONString] wrote, up to the closing
    quote, gives the string back. *)
Lemma string_chars_quote_chars (s rest : jsstring) :
  string_chars (quote_chars s ++ 34 :: rest) = Parsed s rest.
Proof.
  assert (G : forall n s, (length s <= n)%nat ->
              string_chars (quote_chars s ++ 34 :: rest) = Parsed s rest).
  { induction n as [|n IH]; intros s0 Hn.
    - destruct s0; [reflexivity|simpl in Hn; lia].
    - destruct s0 as [|c s1]; [reflexivity|]. simpl in Hn.
      rewrite quote_chars_cons.
      destruct (is_high_surrogate c) eqn:Eh.
      + destruct (high_surrogate_plain c Eh) as (A1 & A2 & A3 & A4).
        destruct s1 as [|d s2].
        * rewrite string_chars_unicode_escape by exact A4. reflexivity.
        * destruct (is_low_surrogate d) eqn:El.
          -- destruct (low_surrogate_plain d El) as (B1 & B2 & B3).
             rewrite <- !app_comm_cons.
             rewrite string_chars_plain by assumption.
             rewrite string_chars_plain by assumption.
             rewrite IH by (simpl in *; lia). reflexivity.
          -- rewrite <- app_assoc.
             rewrite string_chars_unicode_escape by exact A4.
             rewrite IH by (simpl in *; lia). reflexivity.
      + rewrite <- app_assoc. rewrite string_chars_escape_unit by exact Eh.
        rewrite IH by lia. reflexivity. }
  apply (G (length s)). reflexivity.
Qed.

Lemma reads_back_mono (n m : nat) (text : jsstring) (v : json) :
  (n <= m)%nat -> reads_back n text v -> reads_back m text v.
Proof. intros L H fuel r Lf D. apply H; [lia|exact D]. Qed.

Lemma reads_back_string (s : jsstring) : reads_back 1 (QuoteJSONString s) (JStr s).
Proof.
  intros fuel r L _. unfold QuoteJSONString. split; [reflexivity|].
  destruct fuel as [|fuel]; [lia|].
  rewrite <- app_comm_cons, <- app_assoc.
  cbn [parse_value]. change (34 =? 34) with true. cbv iota.
  change ([34] ++ r) with (34 :: r).
  rewrite string_chars_quote_chars. reflexivity.
Qed.

(** The version number of the format. *)
Lemma reads_back_version :
  reads_back 1 (Number_toString ChipClipboardSerializer.CLIPBOARD_VERSION)
             (JNum (mkNumber false 1 0)).
Proof.
  intros fuel r L D. split; [reflexivity|].
  destruct fuel as [|fuel]; [lia|].
  destruct r as [|c r]; [reflexivity|].
  destruct D as [-> | [-> | ->]]; reflexivity.
Qed.

Lemma skip_ws_token (c : code_unit) (s : jsstring) :
  is_ws c = false -> skip_ws (c :: s) = c :: s.
Proof. intros H. simpl. rewrite H. reflexivity. Qed.

Lemma skip_ws_delimited (r : jsstring) : delimited r -> skip_ws r = r.
Proof.
  destruct r as [|c r]; [reflexivity|].
  intros [-> | [-> | ->]]; reflexivity.
Qed.

Lemma join_cons (sep x : jsstring) (l : list jsstring) :
  l <> [] -> join sep (x :: l) = x ++ sep ++ join sep l.
Proof. destruct l; [congruence|reflexivity]. Qed.

Lemma parse_members_step (fuel : nat) (k t : jsstring) (v : json) (rest : jsstring) :
  reads_back fuel t v -> delimited rest ->
  parse_members (S fuel) (member_text (k, t, v) ++ rest) =
  match rest with
  | c3 :: r4 =>
      if c3 =? 44 then pmap (cons (k, v)) (parse_members fuel (skip_ws r4))
      else if c3 =? 125 then Parsed [(k, v)] r4
      else Reject
  | [] => Reject
  end.
Proof.
  intros Hv D. unfold member_text, QuoteJSONString. cbn [fst snd].
  rewrite <- !app_comm_cons, <- !app_assoc. cbn [parse_members].
  change (34 =? 34) with true. cbv iota.
  change ([34] ++ (58 :: t) ++ rest) with (34 :: 58 :: t ++ rest).
  rewrite string_chars_quote_chars. cbv beta iota.
  rewrite (skip_ws_token 58 (t ++ rest) eq_refl).
  change (58 =? 58) with true. cbv beta iota.
  destruct (Hv fuel rest (le_n _) D) as [Hs Hp].
  rewrite Hs, Hp. cbv beta iota. rewrite (skip_ws_delimited rest D). reflexivity.
Qed.

(** The members of a non-empty object, up to its closing brace. *)
Lemma parse_members_join (depth : nat) (ms : list (jsstring * jsstring * json)) :
  ms <> [] ->
  Forall (fun m => reads_back depth (snd (fst m)) (snd m)) ms ->
  forall fuel r, (depth + length ms <= fuel)%nat ->
    parse_members fuel (join [44] (map member_text ms) ++ 125 :: r) =
    Parsed (map member_value ms) r.
Proof.
  induction ms as [|[[k t] v] ms IH]; [congruence|]. intros _ HF fuel r L.
  inversion HF as [|m ms' Hm HF' E]; subst. cbn [fst snd] in Hm.
  destruct fuel as [|fuel]; [simpl in L; lia|].
  assert (Hm' : reads_back fuel t v) by (apply (reads_back_mono depth); [simpl in L; lia|exact Hm]).
  destruct ms as [|m2 ms].
  - cbn [map join]. rewrite (parse_members_step fuel k t v (125 :: r) Hm').
    + reflexivity.
    + simpl. auto.
  - assert (IH' := IH ltac:(discriminate) HF' fuel r ltac:(simpl in *; lia)).
    assert (Htok : skip_ws (join [44] (map member_text (m2 :: ms)) ++ 125 :: r)
                   = join [44] (map member_text (m2 :: ms)) ++ 125 :: r).
    { destruct ms; reflexivity. }
    change (map member_text ((k, t, v) :: m2 :: ms))
      with (member_text (k, t, v) :: map member_text (m2 :: ms)).
    change (map member_value ((k, t, v) :: m2 :: ms))
      with ((k, v) :: map member_value (m2 :: ms)).
    revert IH' Htok.
    generalize (map member_value (m2 :: ms)) as vs.
    assert (Hne : map member_text (m2 :: ms) <> []) by discriminate.
    revert Hne. generalize (map member_text (m2 :: ms)) as more.
    intros more Hne vs IH' Htok.
    rewrite (join_cons _ _ _ Hne), <- !app_assoc.
    rewrite (parse_members_step fuel k t v _ Hm').
    + change ([44] ++ join [44] more ++ 125 :: r)
        with (44 :: (join [44] more ++ 125 :: r)).
      change (44 =? 44) with true. cbv beta iota.
      rewrite Htok, IH'. reflexivity.
    + simpl. auto.
Qed.

Lemma join_members_head (ms : list (jsstring * jsstring * json)) :
  ms <> [] -> exists tail, join [44] (map member_text ms) = 34 :: tail.
Proof.
  destruct ms as [|[[k t] v] [|m2 ms]]; [congruence| |]; intros _;
    eexists; reflexivity.
Qed.

(** A non-empty object. *)
Lemma reads_back_object (depth : nat) (ms : list (jsstring * jsstring * json)) :
  ms <> [] ->
  Forall (fun m => reads_back depth (snd (fst m)) (snd m)) ms ->
  reads_back (S (depth + length ms))
             (123 :: join [44] (map member_text ms) ++ [125])
             (JObj (map member_value ms)).
Proof.
  intros Hne HF fuel r L _. split; [reflexivity|].
  destruct fuel as [|fuel]; [lia|].
  pose proof (parse_members_join depth ms Hne HF fuel r ltac:(lia)) as Hp.
  destruct (join_members_head ms Hne) as [tail Ht].
  rewrite <- app_comm_cons, <- app_assoc.
  change ([125] ++ r) with (125 :: r).
  rewrite Ht in *. rewrite <- app_comm_cons in *.
  cbn [parse_value]. change (123 =? 34) with false. change (123 =? 91) with false.
  change (123 =? 123) with true. cbv beta iota.
  rewrite (skip_ws_token 34 _ eq_refl).
  change (34 =? 125) with false. cbv beta iota.
  rewrite Hp. reflexivity.
Qed.

Lemma parse_elements_step (fuel : nat) (t : jsstring) (v : json) (rest : jsstring) :
  reads_back fuel t v -> delimited rest ->
  parse_elements (S fuel) (t ++ rest) =
  match rest with
  | c :: r' =>
      if c =? 44 then pmap (cons v) (parse_elements fuel (skip_ws r'))
      else if c =? 93 then Parsed [v] r'
      else Reject
  | [] => Reject
  end.
Proof.
  intros Hv D. cbn [parse_elements].
  destruct (Hv fuel rest (le_n _) D) as [_ Hp].
  rewrite Hp. cbv beta iota. rewrite (skip_ws_delimited rest D). reflexivity.
Qed.

(** The elements of a non-empty array, up to its closing bracket. *)
Lemma parse_elements_join (depth : nat) (texts : list jsstring) (vs : list json) :
  texts <> [] ->
  Forall2 (reads_back depth) texts vs ->
  forall fuel r, (depth + length texts <= fuel)%nat ->
    parse_elements fuel (join [44] texts ++ 93 :: r) = Parsed vs r.
Proof.
  intros Hne HF. induction HF as [|t v texts vs Hv HF IH]; [congruence|].
  intros fuel r L. destruct fuel as [|fuel]; [simpl in L; lia|].
  assert (Hv' : reads_back fuel t v)
    by (apply (reads_back_mono depth); [simpl in L; lia|exact Hv]).
  destruct texts as [|t2 texts].
  - inversion HF; subst. cbn [join].
    rewrite (parse_elements_step fuel t v (93 :: r) Hv'); [reflexivity|].
    simpl. auto.
  - assert (Hne2 : t2 :: texts <> []) by discriminate.
    assert (IH' := IH Hne2 fuel r ltac:(simpl in *; lia)).
    assert (Htok : skip_ws (join [44] (t2 :: texts) ++ 93 :: r)
                   = join [44] (t2 :: texts) ++ 93 :: r).
    { inversion HF as [|? v2 ? vs2 Hv2 HF2]; subst.
      destruct texts as [|t3 texts].
      - cbn [join]. apply (Hv2 depth (93 :: r) (le_n _)). simpl. auto.
      - rewrite (join_cons [44] t2 (t3 :: texts) ltac:(discriminate)), <- app_assoc.
        apply (Hv2 depth _ (le_n _)). simpl. auto. }
    rewrite (join_cons _ _ _ Hne2), <- !app_assoc.
    rewrite (parse_elements_step fuel t v _ Hv').
    + change ([44] ++ join [44] (t2 :: texts) ++ 93 :: r)
        with (44 :: (join [44] (t2 :: texts) ++ 93 :: r)).
      change (44 =? 44) with true. cbv beta iota.
      rewrite Htok, IH'. reflexivity.
    + simpl. auto.
Qed.

(** An array of objects. *)
Lemma reads_back_array (depth : nat) (texts : list jsstring) (vs : list json) :
  Forall2 (reads_back depth) texts vs ->
  Forall (fun t => exists tail, t = 123 :: tail) texts ->
  reads_back (S (depth + length texts)) (print_array texts) (JArr vs).
Proof.
  intros HF Hobj fuel r L _. split; [reflexivity|].
  destruct fuel as [|fuel]; [lia|].
  unfold print_array. rewrite <- app_comm_cons, <- app_assoc.
  change ([93] ++ r) with (93 :: r).
  destruct texts as [|t texts].
  - inversion HF; subst. reflexivity.
  - pose proof (parse_elements_join depth (t :: texts) vs ltac:(discriminate)
                  HF fuel r ltac:(lia)) as Hp.
    inversion Hobj as [|? ? Hh _]; subst. destruct Hh as [tail ->].
    assert (Hhead : exists tail', join [44] ((123 :: tail) :: texts) = 123 :: tail').
    { destruct texts; eexists; reflexivity. }
    destruct Hhead as [tail' Ht]. rewrite Ht in *. rewrite <- app_comm_cons in *.
    cbn [parse_value]. change (91 =? 34) with false. change (91 =? 91) with true.
    cbv beta iota. rewrite (skip_ws_token 123 _ eq_refl).
    change (123 =? 93) with false. cbv beta iota.
    rewrite Hp. reflexivity.
Qed.

End JSONFacts.


(* ================================================================== *)
(** * Properties of the clipboard serializer                           *)
(* ================================================================== *)

Module SerializerFacts.
Import JSON JSONFacts ChipClipboardSerializer.
Local Open Scope N_scope.

(** ** The payload is read back *)

Lemma stringify_chip_members (c : SerializedChip) :
  stringify_chip c = 123 :: join [44] (map member_text (chip_members c)) ++ [125]
  /\ json_of_chip c = JObj (map member_value (chip_members c)).
Proof.
  unfold stringify_chip, json_of_chip, chip_members.
  destruct (s_value c); split; reflexivity.
Qed.

Lemma reads_back_chip (c : SerializedChip) :
  reads_back 5 (stringify_chip c) (json_of_chip c).
Proof.
  destruct (stringify_chip_members c) as [-> ->].
  apply (reads_back_mono (S (1 + length (chip_members c)))).
  - unfold chip_members. destruct (s_value c); simpl; lia.
  - apply reads_back_object.
    + unfold chip_members. discriminate.
    + unfold chip_members.
      destruct (s_value c);
        repeat (apply Forall_cons; [cbn [fst snd]; apply reads_back_string|]);
        apply Forall_nil.
Qed.

Lemma reads_back_chips (cs : list SerializedChip) :
  reads_back (6 + length cs)
             (print_array (map stringify_chip cs)) (JArr (map json_of_chip cs)).
Proof.
  apply (reads_back_mono (S (5 + length (map stringify_chip cs)))).
  - rewrite length_map. lia.
  - apply reads_back_array.
    + induction cs; simpl; constructor; [apply reads_back_chip|assumption].
    + apply Forall_forall. intros t Ht. apply in_map_iff in Ht as [c [<- _]].
      eexists. reflexivity.
Qed.

Lemma reads_back_data (cs : list SerializedChip) :
  reads_back (9 + length cs)
             (stringify (mkData CLIPBOARD_VERSION cs))
             (json_of_data (mkData CLIPBOARD_VERSION cs)).
Proof.
  pose (ms := [(lit "version", Number_toString CLIPBOARD_VERSION,
                JNum (mkNumber false 1 0));
               (lit "chips", print_array (map stringify_chip cs),
                JArr (map json_of_chip cs))]).
  change (stringify (mkData CLIPBOARD_VERSION cs))
    with (123 :: join [44] (map member_text ms) ++ [125]).
  change (json_of_data (mkData CLIPBOARD_VERSION cs))
    with (JObj (map member_value ms)).
  apply (reads_back_mono (S (6 + length cs + length ms))); [simpl; lia|].
  apply reads_back_object; [discriminate|].
  apply Forall_cons; [|apply Forall_cons; [|apply Forall_nil]]; cbn [fst snd].
  - apply (reads_back_mono 1); [lia|apply reads_back_version].
  - apply reads_back_chips.
Qed.

Lemma join_length (sep : jsstring) (l : list jsstring) :
  Forall (fun t => (1 <= length t)%nat) l -> (length l <= length (join sep l))%nat.
Proof.
  induction 1 as [|t l Ht HF IH]; [simpl; lia|].
  destruct l as [|t2 l]; [simpl; lia|].
  rewrite (join_cons sep t (t2 :: l) ltac:(discriminate)), !length_app.
  simpl in *. lia.
Qed.

Lemma stringify_length (cs : list SerializedChip) :
  (length cs + 7 <= length (stringify (mkData CLIPBOARD_VERSION cs)))%nat.
Proof.
  assert (H : (length cs <= length (join [44%N] (map stringify_chip cs)))%nat).
  { rewrite <- (length_map stringify_chip cs) at 1. apply join_length.
    apply Forall_forall. intros t Ht. apply in_map_iff in Ht as [c [<- _]].
    simpl. lia. }
  unfold stringify, print_object, print_array.
  cbn [flat_map print_member join app chips version].
  repeat (rewrite ?length_app; cbn [length]). lia.
Qed.

(** [JSON.parse(JSON.stringify(data))] is [data], for the data that
    [serialize] builds. *)
Lemma parse_stringify (cs : list SerializedChip) :
  parse (stringify (mkData CLIPBOARD_VERSION cs)) =
  Normal (json_of_data (mkData CLIPBOARD_VERSION cs)).
Proof.
  unfold parse.
  destruct (reads_back_data cs (fuel_for (stringify (mkData CLIPBOARD_VERSION cs))) [])
    as [Hs Hp].
  - unfold fuel_for. pose proof (stringify_length cs). lia.
  - exact I.
  - rewrite app_nil_r in Hs, Hp. rewrite Hs, Hp. reflexivity.
Qed.

(** ** [deserialize] after [serialize] *)

Lemma startsWith_app (p s : jsstring) : startsWith (p ++ s) p = true.
Proof. induction p as [|x p IH]; simpl; [reflexivity|]. rewrite N.eqb_refl. exact IH. Qed.

Lemma payload_marker (s : jsstring) : payload (CLIPBOARD_MARKER ++ s) = s.
Proof.
  unfold payload, slice_from. rewrite skipn_app, skipn_all, Nat.sub_diag. reflexivity.
Qed.

Lemma reconstruct_chip (rng : Crypto.entropy) (k : nat) (c : SerializedChip) :
  reconstruct rng k (json_of_chip c) =
  Normal (Raw.mkChip (Crypto.randomUUID (rng k)) (Some (JStr (s_label c)))
                     (Some (JStr (or_else (s_value c) (s_label c)))) false false).
Proof. unfold json_of_chip. destruct (s_value c); reflexivity. Qed.

Lemma map_reconstruct_chips (rng : Crypto.entropy) (k : nat) (cs : list SerializedChip) :
  map_reconstruct rng k (map json_of_chip cs) = Normal (reconstructed rng k cs).
Proof.
  revert k. induction cs as [|c cs IH]; intros k; [reflexivity|].
  cbn [map map_reconstruct reconstructed]. rewrite reconstruct_chip. cbn [bind].
  rewrite IH. reflexivity.
Qed.

(** The structured branch on a parsed payload. *)
Lemma deserialize_structured (rng : Crypto.entropy) (s : jsstring)
    (data : json) (v : number) (elems : list json) :
  startsWith s CLIPBOARD_MARKER = true ->
  parse (payload s) = Normal data ->
  structured data = Some (v, elems) ->
  deserialize rng s =
  Normal (if is_one v
          then try_catch (cs <- map_reconstruct rng 0 elems ;;
                          Normal (mkOutcome (Some cs) []))
                         (fun error => mkOutcome null [error_failed_to_parse error])
          else mkOutcome null [warn_unsupported_version v]).
Proof.
  intros Hm Hp Hs. unfold deserialize. rewrite Hm.
  unfold deserializeChipInputFormat, deserializeChipInputFormat_try.
  fold (payload s). rewrite Hp. cbn [bind].
  destruct data as [| | | | |ms]; try discriminate Hs.
  cbn [ToBoolean negb get bind]. unfold structured in Hs.
  destruct (lookup_last (lit "version") ms) as [[| |v'| | |]|]; try discriminate Hs.
  cbn [is_number negb].
  destruct (lookup_last (lit "chips") ms) as [[| | | |elems'|]|]; try discriminate Hs.
  injection Hs as -> ->. cbn [isArray negb].
  destruct (is_one v); reflexivity.
Qed.

(** [deserialize(serialize(T))]: the chips of [T] reconstructed, and
    nothing on the console. *)
Lemma deserialize_serialize (rng : Crypto.entropy) (T : list Chip) :
  deserialize rng (serialize T) =
  Normal (mkOutcome (Some (reconstructed rng 0 (map clean T))) []).
Proof.
  unfold serialize.
  rewrite (deserialize_structured rng _
             (json_of_data (mkData CLIPBOARD_VERSION (map clean T)))
             (mkNumber false 1 0) (map json_of_chip (map clean T))).
  - change (is_one (mkNumber false 1 0)) with true. cbv iota.
    rewrite map_reconstruct_chips. reflexivity.
  - apply startsWith_app.
  - rewrite payload_marker. apply parse_stringify.
  - reflexivity.
Qed.

Lemma randomUUID_length (r : N) : length (Crypto.randomUUID r) = 36%nat.
Proof. reflexivity. Qed.

Lemma all_typed_reconstructed (rng : Crypto.entropy) (k : nat) (cs : list SerializedChip) :
  all_typed (reconstructed rng k cs) = Some (pasted_chips rng k cs).
Proof.
  revert k. induction cs as [|c cs IH]; intros k; [reflexivity|].
  cbn [reconstructed pasted_chips all_typed]. rewrite IH. reflexivity.
Qed.

Lemma pasted_chips_ids (rng : Crypto.entropy) (k : nat) (cs : list SerializedChip) :
  map id (pasted_chips rng k cs) =
  map (fun i => Crypto.randomUUID (rng i)) (seq k (length cs)).
Proof.
  revert k. induction cs as [|c cs IH]; intros k; [reflexivity|].
  cbn [pasted_chips map length seq id]. rewrite IH. reflexivity.
Qed.

Lemma pasted_chips_labels (rng : Crypto.entropy) (k : nat) (cs : list SerializedChip) :
  map label (pasted_chips rng k cs) = map s_label cs.
Proof.
  revert k. induction cs as [|c cs IH]; intros k; [reflexivity|].
  cbn [pasted_chips map label]. rewrite IH. reflexivity.
Qed.

Lemma pasted_chips_values (rng : Crypto.entropy) (k : nat) (cs : list SerializedChip) :
  Forall (fun c => s_value c <> None) cs ->
  map value (pasted_chips rng k cs) = map s_value cs.
Proof.
  intros H. revert k. induction H as [|c cs Hc H IH]; intros k; [reflexivity|].
  cbn [pasted_chips map value]. rewrite IH.
  destruct (s_value c); [reflexivity|congruence].
Qed.

Lemma pasted_chips_flags (rng : Crypto.entropy) (k : nat) (cs : list SerializedChip) :
  Forall (fun c => selected c = Some false /\ disabled c = Some false)
         (pasted_chips rng k cs).
Proof.
  revert k. induction cs as [|c cs IH]; intros k; constructor; [split; reflexivity|apply IH].
Qed.

(** C1 (as amended). For a list [T] whose chips all have a value,
    decoding the encoding of [T] succeeds, prints nothing, and gives as
    many chips as [T] has, with the labels and the values of [T] in
    order, [selected] and [disabled] false, and as ids the version 4
    UUIDs drawn for this call, one per position: the serialized id is
    never copied. The new id differs from the old one at a position
    unless the old one is the very UUID drawn there; it always does when
    the old id is not 36 characters long. *)
Theorem C1_roundtrip (rng : Crypto.entropy) (T : list Chip) :
  Forall (fun c => value c <> None) T ->
  exists pasted chips,
    deserialize rng (serialize T) = Normal (mkOutcome (Some pasted) [])
    /\ all_typed pasted = Some chips
    /\ length chips = length T
    /\ map label chips = map label T
    /\ map value chips = map value T
    /\ Forall (fun c => selected c = Some false /\ disabled c = Some false) chips
    /\ map id chips = fresh_ids rng (length T)
    /\ (forall k c r, nth_error T k = Some c -> nth_error chips k = Some r ->
          id r = Crypto.randomUUID (rng k)
          /\ (length (id c) <> 36%nat -> id r <> id c)).
Proof.
  intros HT.
  exists (reconstructed rng 0 (map clean T)), (pasted_chips rng 0 (map clean T)).
  assert (Hids : map id (pasted_chips rng 0 (map clean T)) = fresh_ids rng (length T)).
  { rewrite pasted_chips_ids, length_map. reflexivity. }
  assert (Hlab : map label (pasted_chips rng 0 (map clean T)) = map label T).
  { rewrite pasted_chips_labels, map_map. reflexivity. }
  split; [apply deserialize_serialize|].
  split; [apply all_typed_reconstructed|].
  split; [rewrite <- (length_map label), Hlab; apply length_map|].
  split; [exact Hlab|].
  split.
  { rewrite pasted_chips_values, map_map; [reflexivity|].
    apply Forall_forall. intros c Hc. apply in_map_iff in Hc as [c0 [<- Hc0]].
    rewrite Forall_forall in HT. exact (HT c0 Hc0). }
  split; [apply pasted_chips_flags|].
  split; [exact Hids|].
  intros k c r Hc Hr.
  assert (Hid : id r = Crypto.randomUUID (rng k)).
  { assert (Hk : nth_error (map id (pasted_chips rng 0 (map clean T))) k = Some (id r))
      by (rewrite nth_error_map, Hr; reflexivity).
    rewrite Hids in Hk. unfold fresh_ids in Hk.
    rewrite nth_error_map in Hk.
    assert (Hlt : (k < length T)%nat) by (apply nth_error_Some; congruence).
    rewrite (nth_error_nth' _ 0%nat) in Hk by (rewrite length_seq; exact Hlt).
    rewrite seq_nth in Hk by exact Hlt. simpl in Hk. congruence. }
  split; [exact Hid|].
  intros Hlen Heq. apply Hlen. rewrite <- Heq, Hid. apply randomUUID_length.
Qed.

(** C1 at React and TypeScript with ids 1 and 2. *)
Lemma C1_roundtrip_witness :
  let T := [createChip 0 (lit "React") (mkOverrides (Some (lit "1")) None None None);
            createChip 0 (lit "TypeScript") (mkOverrides (Some (lit "2")) None None None)] in
  exists pasted chips,
    deserialize (fun k => N.of_nat k) (serialize T) = Normal (mkOutcome (Some pasted) [])
    /\ all_typed pasted = Some chips
    /\ length chips = length T
    /\ map label chips = map label T
    /\ map value chips = map value T
    /\ Forall (fun c => selected c = Some false /\ disabled c = Some false) chips
    /\ map id chips = fresh_ids (fun k => N.of_nat k) (length T)
    /\ (forall k c r, nth_error T k = Some c -> nth_error chips k = Some r ->
          id r = Crypto.randomUUID (N.of_nat k)
          /\ (length (id c) <> 36%nat -> id r <> id c)).
Proof.
  intros T. apply (C1_roundtrip (fun k => N.of_nat k) T).
  repeat constructor; discriminate.
Defined.

(** C1, the claim as written fails: a chip whose id is the UUID that the
    random source yields next comes back with the same id. *)
Lemma C1_counterexample :
  let rng : Crypto.entropy := fun _ => 0 in
  let T := [mkChip (lit "00000000-0000-4000-8000-000000000000") (lit "React")
                   (Some (lit "React")) (Some false) (Some false)] in
  Forall (fun c => value c <> None) T
  /\ exists pasted,
       deserialize rng (serialize T) = Normal (mkOutcome (Some pasted) [])
       /\ map Raw.id pasted = map id T.
Proof.
  intros rng T. split; [repeat constructor; discriminate|].
  eexists. split; [apply deserialize_serialize|]. reflexivity.
Qed.

(** ** [serialize] tells apart what it keeps *)

Lemma json_of_chip_inj (c1 c2 : SerializedChip) :
  json_of_chip c1 = json_of_chip c2 -> c1 = c2.
Proof.
  destruct c1 as [i1 l1 [v1|]], c2 as [i2 l2 [v2|]]; unfold json_of_chip; simpl;
    intros H; inversion H; reflexivity.
Qed.

Lemma map_json_of_chip_inj (cs1 cs2 : list SerializedChip) :
  map json_of_chip cs1 = map json_of_chip cs2 -> cs1 = cs2.
Proof.
  revert cs2. induction cs1 as [|c1 cs1 IH]; intros [|c2 cs2] H; try discriminate H;
    [reflexivity|].
  cbn [map] in H. assert (Hc : json_of_chip c1 = json_of_chip c2) by congruence.
  assert (Hcs : map json_of_chip cs1 = map json_of_chip cs2) by congruence.
  f_equal; [apply json_of_chip_inj, Hc|apply IH, Hcs].
Qed.

Lemma serialize_inj (T1 T2 : list Chip) :
  serialize T1 = serialize T2 -> map clean T1 = map clean T2.
Proof.
  unfold serialize. intros H. apply app_inv_head in H.
  assert (Hp : parse (stringify (mkData CLIPBOARD_VERSION (map clean T1))) =
               parse (stringify (mkData CLIPBOARD_VERSION (map clean T2))))
    by (rewrite H; reflexivity).
  rewrite !parse_stringify in Hp. injection Hp as Hp.
  apply map_json_of_chip_inj. exact Hp.
Qed.

(** C2 (as amended). [serialize] depends on nothing but the ids, labels
    and values of the chips in their order: two lists that agree on them
    give the same string, two that do not give different strings. So the
    reversed list gives a different string exactly when the sequence of
    (id, label, value) is not its own reverse. *)
Theorem C2_serialize_deterministic (T1 T2 : list Chip) :
  (map clean T1 = map clean T2 -> serialize T1 = serialize T2)
  /\ (map clean T1 <> map clean T2 -> serialize T1 <> serialize T2)
  /\ (map clean T1 <> rev (map clean T1) -> serialize T1 <> serialize (rev T1)).
Proof.
  split; [|split].
  - intros H. unfold serialize. rewrite H. reflexivity.
  - intros H E. apply H, serialize_inj, E.
  - intros H E. apply H. rewrite <- map_rev. apply serialize_inj, E.
Qed.

(** C2 at React, TypeScript: the reversed order changes the string. *)
Lemma C2_serialize_deterministic_witness :
  let react := createChip 0 (lit "React") (mkOverrides (Some (lit "1")) None None None) in
  let ts := createChip 0 (lit "TypeScript") (mkOverrides (Some (lit "2")) None None None) in
  serialize [react; ts] = serialize [react; ts]
  /\ serialize [react; ts] <> serialize [ts; react].
Proof.
  intros react ts.
  destruct (C2_serialize_deterministic [react; ts] [react; ts]) as (H1 & _ & H3).
  split; [apply H1; reflexivity|apply H3; discriminate].
Defined.

(** C2, the claim as written fails: a list of three chips, two of them
    distinct, that reads the same in both directions. *)
Lemma C2_counterexample :
  let react := mkChip (lit "1") (lit "React") (Some (lit "React")) (Some false) (Some false) in
  let ts := mkChip (lit "2") (lit "TypeScript") (Some (lit "TypeScript")) (Some false) (Some false) in
  let T := [react; ts; react] in
  (exists a b, In a T /\ In b T /\ a <> b)
  /\ serialize T = serialize (rev T).
Proof.
  intros react ts T. split; [|reflexivity].
  exists react, ts. split; [left; reflexivity|].
  split; [right; left; reflexivity|discriminate].
Qed.

(** ** [deserialize] never throws *)

Lemma get_throws (v : json) (k : jsstring) (e : exn) :
  get v k = Throw e -> v = JNull /\ e = TypeError.
Proof. destruct v; simpl; intros H; inversion H; split; reflexivity. Qed.

Lemma reconstruct_throws (rng : Crypto.entropy) (k : nat) (chipData : json) (e : exn) :
  reconstruct rng k chipData = Throw e -> e = TypeError.
Proof.
  unfold reconstruct.
  destruct (get chipData (lit "label")) as [l|e1] eqn:E1; cbn [bind].
  - destruct (get chipData (lit "value")) as [v|e2] eqn:E2; cbn [bind].
    + discriminate.
    + intros [= <-]. apply (get_throws _ _ _ E2).
  - intros [= <-]. apply (get_throws _ _ _ E1).
Qed.

Lemma map_reconstruct_throws (rng : Crypto.entropy) (k : nat) (elems : list json) (e : exn) :
  map_reconstruct rng k elems = Throw e -> e = TypeError.
Proof.
  revert k. induction elems as [|chipData elems IH]; intros k; [discriminate|].
  cbn [map_reconstruct].
  destruct (reconstruct rng k chipData) as [c|e1] eqn:E1; cbn [bind].
  - destruct (map_reconstruct rng (S k) elems) as [cs|e2] eqn:E2; cbn [bind].
    + discriminate.
    + intros [= <-]. apply (IH _ E2).
  - intros [= <-]. apply (reconstruct_throws _ _ _ _ E1).
Qed.

Lemma deserializeChipInputFormat_try_throws (rng : Crypto.entropy) (s : jsstring) (e : exn) :
  deserializeChipInputFormat_try rng s = Throw e -> e = SyntaxError \/ e = TypeError.
Proof.
  unfold deserializeChipInputFormat_try.
  destruct (parse_decides (slice_from (length CLIPBOARD_MARKER) s)) as [[data Hp]|Hp];
    rewrite Hp; cbn [bind]; [|intros [= <-]; left; reflexivity].
  destruct (negb (ToBoolean data)) eqn:Eb; [discriminate|].
  destruct (get data (lit "version")) as [version|e1] eqn:E1; cbn [bind].
  - destruct (negb (is_number version)); [discriminate|].
    destruct (get data (lit "chips")) as [chips|e2] eqn:E2; cbn [bind].
    + destruct (negb (isArray chips)); [discriminate|].
      destruct version as [[| |v| | |]|]; try discriminate.
      destruct chips as [[| | | |elems|]|]; try discriminate.
      destruct (negb (is_one v)); [discriminate|].
      destruct (map_reconstruct rng 0 elems) as [cs|e3] eqn:E3; cbn [bind].
      * discriminate.
      * intros [= <-]. right. apply (map_reconstruct_throws _ _ _ _ E3).
    + intros [= <-]. right. apply (get_throws _ _ _ E2).
  - intros [= <-]. right. apply (get_throws _ _ _ E1).
Qed.

(** C7. [deserialize] returns normally on every string, with chips or
    with [null]. In the marker branch the [try] block may throw, a
    SyntaxError from [JSON.parse] or a TypeError from reading a property
    of [null], and no other exception; the [catch] clause turns both into
    [null]. In the plain-text branch the [try] block itself never throws. *)
Theorem C7_deserialize_total (rng : Crypto.entropy) (s : jsstring) :
  exists o,
    deserialize rng s = Normal o
    /\ (startsWith s CLIPBOARD_MARKER = true ->
        forall e, deserializeChipInputFormat_try rng s = Throw e ->
                  (e = SyntaxError \/ e = TypeError) /\ returned o = null)
    /\ (startsWith s CLIPBOARD_MARKER = false ->
        deserializePlainTextFallback_try rng s = Normal o).
Proof.
  unfold deserialize. destruct (startsWith s CLIPBOARD_MARKER).
  - eexists. split; [reflexivity|]. split; [|discriminate].
    intros _ e He. split; [apply (deserializeChipInputFormat_try_throws _ _ _ He)|].
    rewrite He. reflexivity.
  - unfold deserializePlainTextFallback, deserializePlainTextFallback_try.
    destruct (Nat.eqb _ 0); eexists; (split; [reflexivity|]);
      (split; [discriminate|reflexivity]).
Qed.

(** C7 at a payload that is not JSON, at one whose chip is [null], and
    at a plain text: each returns normally. *)
Lemma C7_deserialize_total_witness :
  deserialize (fun _ => 0) (json_text "__CHIPINPUT__:invalid json")
  = Normal (mkOutcome null [error_failed_to_parse SyntaxError])
  /\ deserialize (fun _ => 0) (json_text "__CHIPINPUT__:{'version':1,'chips':[null]}")
     = Normal (mkOutcome null [error_failed_to_parse TypeError])
  /\ exists o, deserialize (fun _ => 0) (lit "React") = Normal o.
Proof.
  split; [vm_compute; reflexivity|]. split; [vm_compute; reflexivity|].
  destruct (C7_deserialize_total (fun _ => 0) (lit "React")) as (o & Ho & _).
  exists o. exact Ho.
Defined.

(** ** Unsupported version, malformed payload *)

Lemma deserialize_not_json (rng : Crypto.entropy) (s : jsstring) (e : exn) :
  startsWith s CLIPBOARD_MARKER = true ->
  parse (payload s) = Throw e ->
  deserialize rng s = Normal (mkOutcome null [error_failed_to_parse e]).
Proof.
  intros Hm Hp. unfold deserialize. rewrite Hm.
  unfold deserializeChipInputFormat, deserializeChipInputFormat_try.
  fold (payload s). rewrite Hp. reflexivity.
Qed.

(** The validation of the [try] block is the structured format. *)
Lemma deserialize_not_structured (rng : Crypto.entropy) (s : jsstring) (data : json) :
  startsWith s CLIPBOARD_MARKER = true ->
  parse (payload s) = Normal data ->
  structured data = None ->
  deserialize rng s = Normal (mkOutcome null []).
Proof.
  intros Hm Hp Hs. unfold deserialize. rewrite Hm.
  unfold deserializeChipInputFormat, deserializeChipInputFormat_try.
  fold (payload s). rewrite Hp. cbn [bind].
  destruct data as [|b|n|str|elems|ms]; cbn [ToBoolean negb get bind is_number];
    try reflexivity.
  - destruct b; reflexivity.
  - destruct (is_zero n); reflexivity.
  - destruct str; reflexivity.
  - unfold structured in Hs.
    destruct (lookup_last (lit "version") ms) as [[| |v| | |]|]; try reflexivity.
    cbn [is_number negb].
    destruct (lookup_last (lit "chips") ms) as [[| | | |elems|]|];
      try reflexivity; discriminate Hs.
Qed.

Lemma try_catch_reconstruct_console (rng : Crypto.entropy) (elems : list json) :
  let o := try_catch (cs <- map_reconstruct rng 0 elems ;;
                      Normal (mkOutcome (Some cs) []))
                     (fun error => mkOutcome null [error_failed_to_parse error]) in
  console o = [] \/ exists e, console o = [error_failed_to_parse e].
Proof.
  destruct (map_reconstruct rng 0 elems) as [cs|e]; simpl; eauto.
Qed.

(** C8. On a string with the marker, [deserialize] returns normally. If
    the payload is JSON of the expected shape with a version other than
    1, it returns [null] and prints exactly the warning that names this
    version. In every other case it prints no such warning: nothing, or
    the error of a failed parse. The warning on the console is what
    tells an unsupported version from a malformed payload; the value
    returned is [null] for both. *)
Theorem C8_unsupported_version (rng : Crypto.entropy) (s : jsstring) :
  startsWith s CLIPBOARD_MARKER = true ->
  exists o,
    deserialize rng s = Normal o
    /\ (forall v, unsupported_version s v ->
          returned o = null /\ console o = [warn_unsupported_version v])
    /\ ((forall v, ~ unsupported_version s v) ->
          console o = [] \/ exists e, console o = [error_failed_to_parse e]).
Proof.
  intros Hm.
  destruct (parse (payload s)) as [data|e] eqn:Hp.
  - destruct (structured data) as [[v elems]|] eqn:Hs.
    + rewrite (deserialize_structured rng s data v elems Hm Hp Hs).
      eexists. split; [reflexivity|].
      destruct (is_one v) eqn:E1; split.
      * intros v' (data' & elems' & Hp' & Hs' & E1'). exfalso.
        rewrite Hp in Hp'. injection Hp' as <-. rewrite Hs in Hs'.
        injection Hs' as <- <-. congruence.
      * intros _. apply try_catch_reconstruct_console.
      * intros v' (data' & elems' & Hp' & Hs' & E1').
        rewrite Hp in Hp'. injection Hp' as <-. rewrite Hs in Hs'.
        injection Hs' as <- <-. split; reflexivity.
      * intros H. exfalso. apply (H v). exists data, elems. auto.
    + rewrite (deserialize_not_structured rng s data Hm Hp Hs).
      eexists. split; [reflexivity|]. split.
      * intros v' (data' & elems' & Hp' & Hs' & _). exfalso.
        rewrite Hp in Hp'. injection Hp' as <-. congruence.
      * intros _. left. reflexivity.
  - rewrite (deserialize_not_json rng s e Hm Hp).
    eexists. split; [reflexivity|]. split.
    + intros v' (data' & elems' & Hp' & _). exfalso. congruence.
    + intros _. right. eexists. reflexivity.
Qed.

(** C8 at the payload of the specification, version 999 and no chips. *)
Lemma C8_unsupported_version_witness :
  let s := json_text "__CHIPINPUT__:{'version':999,'chips':[]}" in
  let v := mkNumber false 999 0 in
  unsupported_version s v
  /\ exists o,
       deserialize (fun _ => 0) s = Normal o
       /\ returned o = null /\ console o = [warn_unsupported_version v].
Proof.
  intros s v.
  assert (Hv : unsupported_version s v).
  { exists (JObj [(lit "version", JNum v); (lit "chips", JArr [])]), [].
    split; [vm_compute; reflexivity|]. split; reflexivity. }
  split; [exact Hv|].
  destruct (C8_unsupported_version (fun _ => 0) s eq_refl) as (o & Ho & Hw & _).
  exists o. split; [exact Ho|]. exact (Hw v Hv).
Defined.

(** ** The plain-text fallback *)

Lemma split_not_nil (sep : N) (s : jsstring) : split sep s <> [].
Proof.
  destruct s as [|c s]; simpl; [discriminate|].
  destruct (N.eqb c sep); [discriminate|].
  destruct (split sep s); discriminate.
Qed.

(** [split] cuts at the separators and nowhere else: joining the
    segments with the separator gives the text back, and no segment
    holds a separator. *)
Lemma join_split (sep : N) (s : jsstring) : join [sep] (split sep s) = s.
Proof.
  induction s as [|c s IH]; [reflexivity|]. simpl split.
  destruct (N.eqb_spec c sep) as [->|Hne].
  - rewrite (join_cons _ _ _ (split_not_nil sep s)), IH. reflexivity.
  - destruct (split sep s) as [|seg segs] eqn:E; [destruct (split_not_nil _ _ E)|].
    destruct segs as [|seg2 segs].
    + simpl in *. congruence.
    + change (join [sep] ((c :: seg) :: seg2 :: segs))
        with (c :: join [sep] (seg :: seg2 :: segs)).
      rewrite IH. reflexivity.
Qed.

Lemma split_no_separator (sep : N) (s : jsstring) :
  Forall (fun seg => ~ In sep seg) (split sep s).
Proof.
  induction s as [|c s IH]; simpl; [repeat constructor; simpl; tauto|].
  destruct (N.eqb_spec c sep) as [->|Hne].
  - constructor; [simpl; tauto|exact IH].
  - destruct (split sep s) as [|seg segs]; [repeat constructor; simpl; intuition congruence|].
    inversion IH; subst. constructor; [|assumption].
    simpl. intuition congruence.
Qed.

(** [trim] strips white space, all of it and nothing else, from both
    ends. *)
Lemma trimStart_spec (s : jsstring) :
  exists pre, s = pre ++ trimStart s
              /\ Forall (fun c => isWhiteSpace c = true) pre
              /\ (forall c t', trimStart s = c :: t' -> isWhiteSpace c = false).
Proof.
  induction s as [|c s (pre & E & Hpre & Hhead)].
  - exists []. repeat split; [constructor|discriminate].
  - simpl. destruct (isWhiteSpace c) eqn:Ec.
    + exists (c :: pre). split; [simpl; congruence|]. split; [constructor; assumption|exact Hhead].
    + exists []. split; [reflexivity|]. split; [constructor|].
      intros c' t' [= <- <-]. exact Ec.
Qed.

Lemma trim_spec (s : jsstring) :
  exists pre post,
    s = pre ++ trim s ++ post
    /\ Forall (fun c => isWhiteSpace c = true) pre
    /\ Forall (fun c => isWhiteSpace c = true) post
    /\ trimmed (trim s).
Proof.
  destruct (trimStart_spec s) as (pre & E & Hpre & Hhead).
  destruct (trimStart_spec (rev (trimStart s))) as (post' & E' & Hpost & Hlast).
  assert (Eu : trimStart s = trim s ++ rev post').
  { unfold trim, trimEnd. rewrite <- rev_app_distr, <- E', rev_involutive. reflexivity. }
  exists pre, (rev post'). split; [rewrite <- Eu; exact E|].
  split; [exact Hpre|]. split; [apply Forall_rev; exact Hpost|].
  split.
  - intros c t' Et. apply (Hhead c (t' ++ rev post')). rewrite Eu, Et. reflexivity.
  - intros c t' Et. apply (Hlast c (rev t')).
    unfold trim, trimEnd in Et.
    rewrite <- (rev_involutive (trimStart (rev (trimStart s)))), Et, rev_app_distr.
    reflexivity.
Qed.

Lemma map_labels_typed (rng : Crypto.entropy) (k : nat) (labels : list jsstring) :
  exists chips,
    all_typed (map_labels rng k labels) = Some chips
    /\ map label chips = labels
    /\ map value chips = map Some labels
    /\ map id chips = map (fun i => Crypto.randomUUID (rng i)) (seq k (length labels))
    /\ Forall (fun c => selected c = Some false /\ disabled c = Some false) chips.
Proof.
  revert k. induction labels as [|l labels IH]; intros k.
  - exists []. repeat split; constructor.
  - destruct (IH (S k)) as (chips & H1 & H2 & H3 & H4 & H5).
    exists (mkChip (Crypto.randomUUID (rng k)) l (Some l) (Some false) (Some false) :: chips).
    cbn [map_labels all_typed typed Raw.label Raw.value Raw.id Raw.selected Raw.disabled].
    rewrite H1. cbn [map label value id length seq]. rewrite H2, H3, H4.
    repeat split. constructor; [split; reflexivity|exact H5].
Qed.

Lemma plain_labels_filter (s : jsstring) :
  filter (fun label => Nat.ltb 0 (length label)) (map trim (split 44 s)) = plain_labels s.
Proof. apply filter_ext. intros [|c l]; reflexivity. Qed.

(** The plain-text branch in one equation. *)
Lemma deserialize_plain_text (rng : Crypto.entropy) (s : jsstring) :
  startsWith s CLIPBOARD_MARKER = false ->
  deserialize rng s =
  Normal (mkOutcome match plain_labels s with
                    | [] => null
                    | _ :: _ => Some (map_labels rng 0 (plain_labels s))
                    end []).
Proof.
  intros Hm.
  unfold deserialize, deserializePlainTextFallback, deserializePlainTextFallback_try.
  rewrite Hm, plain_labels_filter. destruct (plain_labels s); reflexivity.
Qed.

Lemma plain_labels_trimmed (s : jsstring) :
  Forall (fun l => trimmed l /\ l <> []) (plain_labels s).
Proof.
  apply Forall_forall. intros l Hl. apply filter_In in Hl as [Hin Hne].
  apply in_map_iff in Hin as [seg [<- _]]. split.
  - destruct (trim_spec seg) as (_ & _ & _ & _ & _ & H). exact H.
  - intros E. rewrite E in Hne. discriminate Hne.
Qed.

(** C9. A string without the marker is cut at the commas, each piece is
    trimmed and the empty ones are dropped. If nothing is left the result
    is [null]; otherwise it is one chip per piece, in order, with the
    piece as label and as value, a fresh id, and [selected] and
    [disabled] false. Nothing is printed. *)
Theorem C9_plain_text_fallback (rng : Crypto.entropy) (s : jsstring) :
  startsWith s CLIPBOARD_MARKER = false ->
  let segments := split 44 s in
  let labels := filter (fun l => negb (str_eqb l [])) (map trim segments) in
  join [44] segments = s
  /\ Forall (fun seg => ~ In 44 seg) segments
  /\ Forall (fun l => trimmed l /\ l <> []) labels
  /\ (labels = [] -> deserialize rng s = Normal (mkOutcome null []))
  /\ (labels <> [] ->
      exists pasted chips,
        deserialize rng s = Normal (mkOutcome (Some pasted) [])
        /\ all_typed pasted = Some chips
        /\ map label chips = labels
        /\ map value chips = map Some labels
        /\ map id chips = fresh_ids rng (length labels)
        /\ Forall (fun c => selected c = Some false /\ disabled c = Some false) chips).
Proof.
  intros Hm segments labels. change labels with (plain_labels s).
  split; [apply join_split|]. split; [apply split_no_separator|].
  split; [apply plain_labels_trimmed|].
  rewrite (deserialize_plain_text rng s Hm).
  split.
  - intros ->. reflexivity.
  - intros Hne. destruct (plain_labels s) as [|l labels'] eqn:El; [congruence|].
    destruct (map_labels_typed rng 0 (l :: labels')) as (chips & H1 & H2 & H3 & H4 & H5).
    exists (map_labels rng 0 (l :: labels')), chips.
    split; [reflexivity|]. repeat split; assumption.
Qed.

(** C9 at the examples of the specification: three labels, the empty
    string, and nothing but commas. *)
Lemma C9_plain_text_fallback_witness :
  (exists pasted chips,
     deserialize (fun _ => 0) (lit "React, TypeScript, Vite")
     = Normal (mkOutcome (Some pasted) [])
     /\ all_typed pasted = Some chips
     /\ map label chips = [lit "React"; lit "TypeScript"; lit "Vite"]
     /\ map value chips = [Some (lit "React"); Some (lit "TypeScript"); Some (lit "Vite")])
  /\ deserialize (fun _ => 0) [] = Normal (mkOutcome null [])
  /\ deserialize (fun _ => 0) (lit ",,,,") = Normal (mkOutcome null []).
Proof.
  split; [|split].
  - destruct (C9_plain_text_fallback (fun _ => 0) (lit "React, TypeScript, Vite") eq_refl)
      as (_ & _ & _ & _ & H).
    destruct (H ltac:(discriminate)) as (pasted & chips & H1 & H2 & H3 & H4 & _).
    exists pasted, chips. repeat split; assumption.
  - destruct (C9_plain_text_fallback (fun _ => 0) [] eq_refl) as (_ & _ & _ & H & _).
    apply H. reflexivity.
  - destruct (C9_plain_text_fallback (fun _ => 0) (lit ",,,,") eq_refl) as (_ & _ & _ & H & _).
    apply H. reflexivity.
Defined.

(** ** The empty list *)

(** C10. The encoding of the empty list decodes to the empty list, and
    so does every payload of the expected shape with version 1 and no
    chips; a plain text with no usable piece decodes to [null]. *)
Theorem C10_empty_asymmetry (rng : Crypto.entropy) :
  deserialize rng (serialize []) = Normal (mkOutcome (Some []) [])
  /\ (forall s data v,
        startsWith s CLIPBOARD_MARKER = true ->
        parse (payload s) = Normal data ->
        structured data = Some (v, []) ->
        is_one v = true ->
        deserialize rng s = Normal (mkOutcome (Some []) []))
  /\ (forall s,
        startsWith s CLIPBOARD_MARKER = false ->
        plain_labels s = [] ->
        deserialize rng s = Normal (mkOutcome null [])).
Proof.
  split; [apply (deserialize_serialize rng [])|]. split.
  - intros s data v Hm Hp Hs H1.
    rewrite (deserialize_structured rng s data v [] Hm Hp Hs), H1. reflexivity.
  - intros s Hm Hl. rewrite (deserialize_plain_text rng s Hm), Hl. reflexivity.
Qed.

(** C10 at the encoding of the empty list, at a payload with white
    space and version 1.0, and at a text of commas and blanks. *)
Lemma C10_empty_asymmetry_witness :
  deserialize (fun _ => 0) (serialize []) = Normal (mkOutcome (Some []) [])
  /\ deserialize (fun _ => 0) (json_text "__CHIPINPUT__: { 'chips' : [ ], 'version' : 1.0 } ")
     = Normal (mkOutcome (Some []) [])
  /\ deserialize (fun _ => 0) (lit " , ,, ") = Normal (mkOutcome null []).
Proof.
  destruct (C10_empty_asymmetry (fun _ => 0)) as (H1 & H2 & H3).
  split; [exact H1|]. split.
  - apply (H2 _ (JObj [(lit "chips", JArr []); (lit "version", JNum (mkNumber false 10 (-1)))])
              (mkNumber false 10 (-1))); reflexivity.
  - apply H3; reflexivity.
Defined.

End SerializerFacts.

(* ================================================================== *)
(** * Properties of the handlers                                       *)
(* ================================================================== *)

Module ChipInputFacts.
Import ChipInput.

Section ListFacts.
Context {A : Type}.

Lemma subsequence_refl (l : list A) : subsequence l l.
Proof. induction l; constructor; assumption. Qed.

Lemma subsequence_filter (f : A -> bool) (l : list A) :
  subsequence (filter f l) l.
Proof.
  induction l as [|x l IH]; simpl; [constructor|].
  destruct (f x); constructor; assumption.
Qed.

Lemma subsequence_removelast (l : list A) : subsequence (removelast l) l.
Proof.
  induction l as [|x l IH]; simpl; [constructor|].
  destruct l as [|y l]; [repeat constructor|].
  constructor. exact IH.
Qed.

Lemma existsb_filter_length (f : A -> bool) (l : list A) :
  Nat.ltb 0 (length (filter f l)) = existsb f l.
Proof.
  induction l as [|x l IH]; simpl; [reflexivity|].
  destruct (f x); simpl; [reflexivity|exact IH].
Qed.

Lemma filter_negb_length (f : A -> bool) (l : list A) :
  length (filter (fun x => negb (f x)) l) + length (filter f l) = length l.
Proof.
  induction l as [|x l IH]; simpl; [reflexivity|].
  destruct (f x); simpl; lia.
Qed.
End ListFacts.

Lemma str_eqb_eq (a b : jsstring) : str_eqb a b = true <-> a = b.
Proof.
  revert b; induction a as [|x a IH]; intros [|y b]; simpl; split; try congruence;
    try reflexivity.
  - intros H. apply andb_true_iff in H as [H1 H2].
    apply N.eqb_eq in H1. apply IH in H2. congruence.
  - intros H. injection H as -> ->. rewrite N.eqb_refl. simpl. apply IH. reflexivity.
Qed.

Lemma str_eqb_refl (a : jsstring) : str_eqb a a = true.
Proof. apply str_eqb_eq. reflexivity. Qed.

Lemma same_but_selected_with (b : bool) (c : Chip) :
  same_but_selected c (with_selected b c).
Proof. repeat split. Qed.

Lemma same_but_selected_refl (c : Chip) : same_but_selected c c.
Proof. repeat split. Qed.

Lemma Forall2_map_same (f : Chip -> Chip) (l : list Chip) :
  (forall c, same_but_selected c (f c)) ->
  Forall2 same_but_selected l (map f l).
Proof. intros H. induction l; simpl; constructor; auto. Qed.

Lemma toggle_pointwise (L : list Chip) (t : jsstring) :
  Forall2 (fun c r =>
             same_but_selected c r /\
             selected r = Some (if str_eqb (id c) t then negb (is_selected c) else false))
          L (toggleSelection L t false).
Proof.
  unfold toggleSelection, next_value, toggleChipSelection, changed. simpl.
  induction L as [|c L IH]; simpl; constructor; [|exact IH].
  destruct (str_eqb (id c) t); split; try reflexivity; apply same_but_selected_with.
Qed.

Lemma toggle_selected_count (L : list Chip) (t : jsstring) :
  length (filter is_selected (toggleSelection L t false)) =
  length (filter (fun c => str_eqb (id c) t && negb (is_selected c)) L).
Proof.
  unfold toggleSelection, next_value, toggleChipSelection, changed. simpl.
  induction L as [|c L IH]; simpl; [reflexivity|].
  destruct (str_eqb (id c) t); simpl.
  - unfold is_selected at 1. simpl. destruct (negb (is_selected c)); simpl; congruence.
  - exact IH.
Qed.

Lemma toggle_selected_is_target (L : list Chip) (t : jsstring) (r : Chip) :
  In r (toggleSelection L t false) -> is_selected r = true -> id r = t.
Proof.
  unfold toggleSelection, next_value, toggleChipSelection, changed. simpl.
  intros Hin Hsel. apply in_map_iff in Hin as [c [Hr _]]. subst r.
  destruct (str_eqb (id c) t) eqn:E.
  - apply str_eqb_eq in E. exact E.
  - discriminate Hsel.
Qed.

(** C3 (as amended). A click without Cmd/Ctrl keeps every chip's id,
    label, value and disabled flag, inverts [selected] on each chip
    whose id is the target and clears it on every other chip. The chips
    selected afterwards all carry the target id, and there are as many of
    them as chips of that id that were not selected before: one when the
    target occurs once and was not selected, none when it was selected. *)
Theorem C3_toggle_single_select (L : list Chip) (t : jsstring) :
  let R := toggleSelection L t false in
  Forall2 (fun c r =>
             same_but_selected c r /\
             selected r = Some (if str_eqb (id c) t then negb (is_selected c) else false))
          L R
  /\ (forall r, In r R -> is_selected r = true -> id r = t)
  /\ length (filter is_selected R) =
     length (filter (fun c => str_eqb (id c) t && negb (is_selected c)) L).
Proof.
  intros R. split; [apply toggle_pointwise|].
  split; [apply toggle_selected_is_target|apply toggle_selected_count].
Qed.

(** C3, the claim as written fails: the target is present and already
    selected, and the click leaves no chip selected instead of one. *)
Lemma C3_counterexample :
  let react := mkChip (lit "1") (lit "React") (Some (lit "React")) (Some true) (Some false) in
  let vite := mkChip (lit "3") (lit "Vite") (Some (lit "Vite")) (Some false) (Some false) in
  let L := [react; vite] in
  In (lit "1") (map id L) /\
  length (filter is_selected (toggleSelection L (lit "1") false)) <> 1.
Proof. simpl. split; [left; reflexivity|discriminate]. Qed.

Lemma removeChips_selected (L : list Chip) (inputValue : jsstring) :
  existsb is_selected L = true ->
  removeSelectedOrLast L inputValue = filter (fun c => negb (is_selected c)) L.
Proof.
  intros H. unfold removeSelectedOrLast, removeChips, selectedChips.
  rewrite existsb_filter_length, H. reflexivity.
Qed.

Lemma removeChips_last (L : list Chip) :
  existsb is_selected L = false -> L <> [] ->
  removeSelectedOrLast L [] = removelast L.
Proof.
  intros H HL. unfold removeSelectedOrLast, removeChips, selectedChips.
  rewrite existsb_filter_length, H.
  destruct L as [|c L]; [congruence|]. reflexivity.
Qed.

Lemma removeChips_unchanged (L : list Chip) (inputValue : jsstring) :
  existsb is_selected L = false -> L = [] \/ inputValue <> [] ->
  removeChips L inputValue = [].
Proof.
  intros H Hcase. unfold removeChips, selectedChips.
  rewrite existsb_filter_length, H.
  destruct Hcase as [-> | Hin]; [reflexivity|].
  destruct inputValue as [|x s]; [congruence|].
  rewrite andb_false_r. reflexivity.
Qed.

(** C4. Delete/Backspace on the list [L] with [inputValue] in the input
    field: if a chip is selected, exactly the selected chips go and the
    others stay in order, whatever the input holds; otherwise, if [L] is
    not empty and the input is empty, exactly the last chip goes;
    otherwise [L] stays as it is. *)
Theorem C4_removeSelectedOrLast_cases (L : list Chip) (inputValue : jsstring) :
  let R := removeSelectedOrLast L inputValue in
  (existsb is_selected L = true ->
     R = filter (fun c => negb (is_selected c)) L
     /\ subsequence R L
     /\ Forall (fun c => is_selected c = false) R
     /\ length R + length (filter is_selected L) = length L)
  /\ (existsb is_selected L = false -> L <> [] -> inputValue = [] ->
      exists x, L = R ++ [x])
  /\ (existsb is_selected L = false -> L = [] \/ inputValue <> [] ->
      R = L /\ removeChips L inputValue = []).
Proof.
  intros R. subst R. split; [|split].
  - intros H. rewrite (removeChips_selected _ _ H).
    split; [reflexivity|]. split; [apply subsequence_filter|]. split.
    + apply Forall_forall. intros c Hc. apply filter_In in Hc as [_ Hc].
      apply negb_true_iff in Hc. exact Hc.
    + apply filter_negb_length.
  - intros H HL ->. rewrite (removeChips_last _ H HL).
    exists (last L (mkChip [] [] None None None)).
    apply app_removelast_last. exact HL.
  - intros H Hcase. unfold removeSelectedOrLast.
    rewrite (removeChips_unchanged _ _ H Hcase). split; reflexivity.
Qed.

(** C4 at the scenario of the specification: React, TypeScript, Vite
    with TypeScript selected; and at a list with nothing selected. *)
Lemma C4_removeSelectedOrLast_witness :
  let react := mkChip (lit "1") (lit "React") (Some (lit "React")) (Some false) (Some false) in
  let ts := mkChip (lit "2") (lit "TypeScript") (Some (lit "TypeScript")) (Some true) (Some false) in
  let vite := mkChip (lit "3") (lit "Vite") (Some (lit "Vite")) (Some false) (Some false) in
  removeSelectedOrLast [react; ts; vite] [] = [react; vite]
  /\ (exists x, [react; vite] = removeSelectedOrLast [react; vite] [] ++ [x])
  /\ removeSelectedOrLast [react; vite] (lit "x") = [react; vite].
Proof.
  intros react ts vite. split; [|split].
  - pose proof (C4_removeSelectedOrLast_cases [react; ts; vite] []) as [H _].
    destruct (H eq_refl) as [H1 _]. exact H1.
  - pose proof (C4_removeSelectedOrLast_cases [react; vite] []) as [_ [H _]].
    apply H; [reflexivity|discriminate|reflexivity].
  - pose proof (C4_removeSelectedOrLast_cases [react; vite] (lit "x")) as [_ [_ H]].
    apply H; [reflexivity|right; discriminate].
Defined.

Lemma Forall2_same_refl (l : list Chip) : Forall2 same_but_selected l l.
Proof. induction l; constructor; auto using same_but_selected_refl. Qed.

Lemma Forall2_same_deselect (l : list Chip) :
  Forall2 same_but_selected l (map (with_selected false) l).
Proof. apply Forall2_map_same. intros c. apply same_but_selected_with. Qed.

(** What each handler asks of the host. *)
Lemma clearSelection_changed (L R : list Chip) :
  changed (clearSelection L) = Some R -> R = map (with_selected false) L.
Proof.
  unfold clearSelection. destruct (Nat.eqb _ 0); cbn; congruence.
Qed.

Lemma removeChips_changed (L R : list Chip) (inputValue : jsstring) :
  changed (removeChips L inputValue) = Some R -> subsequence R L.
Proof.
  unfold removeChips.
  destruct (Nat.ltb 0 (length (selectedChips L))); simpl.
  - cbn. intros [= <-]. apply subsequence_filter.
  - destruct (Nat.ltb 0 (length L) && str_eqb inputValue []); simpl.
    + cbn. intros [= <-]. apply subsequence_removelast.
    + discriminate.
Qed.

Lemma createChipFromInput_changed (L R : list Chip) onAdd (inputValue : jsstring) :
  changed (createChipFromInput L onAdd inputValue) = Some R ->
  exists add chip, onAdd = Some add /\ add (trim inputValue) = Some chip /\
                   R = map (with_selected false) L ++ [chip].
Proof.
  unfold createChipFromInput. destruct onAdd as [add|]; [|discriminate].
  destruct (negb (truthy_str (trim inputValue))); [discriminate|].
  destruct (add (trim inputValue)) as [chip|] eqn:E; [|discriminate].
  cbn. intros [= <-]. eauto.
Qed.

Lemma handleInputChange_changed (L R : list Chip) onAdd separators (newValue : jsstring) :
  changed (handleInputChange L onAdd separators newValue) = Some R ->
  exists add chip, onAdd = Some add /\ add (trim (slice_0_m1 newValue)) = Some chip /\
                   R = map (with_selected false) L ++ [chip].
Proof.
  unfold handleInputChange. destruct onAdd as [add|]; [|discriminate].
  destruct (Nat.ltb 0 (length separators)); [|discriminate].
  destruct (lastChar newValue) as [c|]; [|discriminate].
  destruct (includes separators c); [|discriminate].
  destruct (truthy_str _); [|discriminate].
  destruct (add _) as [chip|] eqn:E; [|discriminate].
  cbn. intros [= <-]. eauto.
Qed.

Lemma handlePaste_changed (L R : list Chip) onPaste (clipboardData : jsstring) :
  changed (handlePaste L onPaste clipboardData) = Some R ->
  exists paste newChips, onPaste = Some paste /\ paste clipboardData = Some newChips /\
                         newChips <> [] /\
                         R = map (with_selected false) L ++ newChips.
Proof.
  unfold handlePaste. destruct onPaste as [paste|]; [|discriminate].
  destruct (paste clipboardData) as [newChips|] eqn:E; [|discriminate].
  destruct newChips as [|c cs]; [discriminate|].
  cbn. intros [= <-]. exists paste, (c :: cs). repeat split; congruence.
Qed.

(** C5. Whatever operation the component performs, the list [R] it
    hands to [onChange] is made of chips of the current list, in their
    order and with id, label, value and disabled flag as they were (only
    [selected] may differ), followed by the chips the host's own callback
    supplied for this operation; only Delete/Backspace leaves chips out,
    and it leaves the remaining ones untouched. *)
Theorem C5_operations_frame (c : component) (op : operation) (R : list Chip) :
  changed (perform c op) = Some R ->
  exists kept R0,
    R = R0 ++ supplied c op
    /\ Forall2 same_but_selected kept R0
    /\ subsequence kept (ChipInput.value c)
    /\ (op <> RemoveSelectedOrLast -> kept = ChipInput.value c)
    /\ (op = RemoveSelectedOrLast -> R = kept).
Proof.
  destruct c as [L onPaste onAdd separators inputValue].
  destruct op as [| |chipId multiSelect| | |newValue|clipboardData]; simpl; intros H.
  - (* selectAllChips *)
    injection H as <-. exists L, (map (with_selected true) L).
    rewrite app_nil_r. repeat split; try congruence.
    + apply Forall2_map_same. intros x. apply same_but_selected_with.
    + apply subsequence_refl.
  - (* clearSelection *)
    apply clearSelection_changed in H. subst R.
    exists L, (map (with_selected false) L).
    rewrite app_nil_r. repeat split; try congruence.
    + apply Forall2_same_deselect.
    + apply subsequence_refl.
  - (* toggleChipSelection *)
    injection H as <-. eexists L, _.
    rewrite app_nil_r. split; [reflexivity|]. repeat split; try congruence.
    + apply Forall2_map_same. intros x.
      destruct (str_eqb (id x) chipId); [apply same_but_selected_with|].
      destruct multiSelect; [apply same_but_selected_refl|apply same_but_selected_with].
    + apply subsequence_refl.
  - (* removeChips *)
    apply removeChips_changed in H. exists R, R.
    rewrite app_nil_r. repeat split; try congruence.
    apply Forall2_same_refl.
  - (* createChipFromInput *)
    apply createChipFromInput_changed in H as (add & chip & -> & E & ->).
    exists L, (map (with_selected false) L). rewrite E.
    repeat split; try congruence.
    + apply Forall2_same_deselect.
    + apply subsequence_refl.
  - (* handleInputChange *)
    apply handleInputChange_changed in H as (add & chip & -> & E & ->).
    exists L, (map (with_selected false) L). rewrite E.
    repeat split; try congruence.
    + apply Forall2_same_deselect.
    + apply subsequence_refl.
  - (* handlePaste *)
    apply handlePaste_changed in H as (paste & newChips & -> & E & _ & ->).
    exists L, (map (with_selected false) L). rewrite E. simpl.
    repeat split; try congruence.
    + apply Forall2_same_deselect.
    + apply subsequence_refl.
Qed.

(** C5 at a paste of one chip into a list of two. *)
Lemma C5_operations_frame_witness :
  let react := mkChip (lit "1") (lit "React") (Some (lit "React")) (Some true) (Some false) in
  let vite := mkChip (lit "3") (lit "Vite") (Some (lit "Vite")) None None in
  let go := mkChip (lit "9") (lit "Go") (Some (lit "Go")) (Some false) (Some false) in
  let c := mkComponent [react; vite] (Some (fun _ => Some [go])) None [] [] in
  exists kept R0,
    [with_selected false react; with_selected false vite; go] = R0 ++ [go]
    /\ Forall2 same_but_selected kept R0
    /\ subsequence kept [react; vite]
    /\ (AppendPasted (lit "Go") <> RemoveSelectedOrLast -> kept = [react; vite])
    /\ (AppendPasted (lit "Go") = RemoveSelectedOrLast ->
        [with_selected false react; with_selected false vite; go] = kept).
Proof.
  intros react vite go c.
  exact (C5_operations_frame c (AppendPasted (lit "Go"))
           [with_selected false react; with_selected false vite; go] eq_refl).
Defined.

(** The Enter path keeps the list and the typed text when the host
    rejects the text. *)
Lemma createChipFromInput_rejected (L : list Chip) add (inputValue : jsstring) :
  add (trim inputValue) = None ->
  createChipFromInput L (Some add) inputValue = [].
Proof.
  intros H. unfold createChipFromInput. rewrite H.
  destruct (negb (truthy_str (trim inputValue))); reflexivity.
Qed.

(** The separator path keeps the list but empties the input field when
    the host rejects the text. *)
Lemma handleInputChange_rejected (L : list Chip) add separators (text : jsstring) (sep : code_unit) :
  In [sep] separators ->
  truthy_str (trim text) = true ->
  add (trim text) = None ->
  handleInputChange L (Some add) separators (text ++ [sep]) = [setInputValue []].
Proof.
  intros Hin Ht Hadd. unfold handleInputChange.
  destruct separators as [|s0 ss]; [contradiction|]. simpl length. simpl Nat.ltb.
  assert (Hlast : lastChar (text ++ [sep]) = Some [sep]).
  { unfold lastChar. rewrite last_last. destruct text; reflexivity. }
  rewrite Hlast.
  assert (Hinc : includes (s0 :: ss) [sep] = true).
  { unfold includes. apply existsb_exists. exists [sep]. split; [exact Hin|].
    apply str_eqb_refl. }
  rewrite Hinc. unfold slice_0_m1. rewrite removelast_last, Ht, Hadd. reflexivity.
Qed.

(** C6, where the code departs from it. With the comma as a separator
    and a host that rejects every text, typing [abc,] leaves the list
    alone but empties the input field: the typed text is lost. (Enter on
    the same text keeps it: [createChipFromInput_rejected].) *)
Theorem C6_separator_rejection_clears_input :
  let L := [mkChip (lit "1") (lit "React") (Some (lit "React")) (Some false) (Some false)] in
  let c := mkComponent L None (Some (fun _ => None)) [lit ","] (lit "abc") in
  truthy_str (trim (lit "abc")) = true
  /\ perform c CreateFromText = []
  /\ perform c (InputChange (lit "abc,")) = [setInputValue []]
  /\ next_value L (perform c (InputChange (lit "abc,"))) = L
  /\ next_inputValue (lit "abc") (perform c (InputChange (lit "abc,"))) = [].
Proof. repeat split. Qed.

End ChipInputFacts.

(* ================================================================== *)
(** * Further properties of the clipboard serializer                   *)
(* ================================================================== *)

Module SerializerMore.
Import JSON JSONFacts ChipClipboardSerializer SerializerFacts.
Local Open Scope N_scope.

(** ** Copy and paste with missing values *)

Lemma pasted_chips_pasted_values (rng : Crypto.entropy) (k : nat) (T : list Chip) :
  map value (pasted_chips rng k (map clean T)) = map pasted_value T.
Proof.
  revert k. induction T as [|c T IH]; intros k; [reflexivity|].
  cbn [map pasted_chips value]. rewrite IH. reflexivity.
Qed.

(** X1. Decoding the encoding of any list succeeds, also when chips have
    no value: [JSON.stringify] leaves the missing value out and the paste
    puts the label in its place. Labels come back as they were, values
    as they were or as the label. *)
Theorem X1_paste_defaults_value (rng : Crypto.entropy) (T : list Chip) :
  exists pasted chips,
    deserialize rng (serialize T) = Normal (mkOutcome (Some pasted) [])
    /\ all_typed pasted = Some chips
    /\ map label chips = map label T
    /\ map value chips = map pasted_value T
    /\ isChipInputFormat (serialize T) = true.
Proof.
  exists (reconstructed rng 0 (map clean T)), (pasted_chips rng 0 (map clean T)).
  split; [apply deserialize_serialize|].
  split; [apply all_typed_reconstructed|].
  split; [rewrite pasted_chips_labels, map_map; reflexivity|].
  split; [apply pasted_chips_pasted_values|].
  apply startsWith_app.
Qed.

(** ** When a structured paste succeeds, and what it gives *)

Lemma reconstruct_rebuilt (rng : Crypto.entropy) (k : nat) (e : json) :
  e <> JNull ->
  reconstruct rng k e =
  Normal (Raw.mkChip (Crypto.randomUUID (rng k)) (member e (lit "label"))
            (nullish_coalesce (member e (lit "value")) (member e (lit "label")))
            false false).
Proof. intros H. destruct e; try reflexivity. congruence. Qed.

Lemma map_reconstruct_rebuilt (rng : Crypto.entropy) (k : nat) (elems : list json) :
  Forall (fun e => e <> JNull) elems ->
  map_reconstruct rng k elems = Normal (rebuilt rng k elems).
Proof.
  intros H. revert k. induction H as [|e elems He H IH]; intros k; [reflexivity|].
  cbn [map_reconstruct rebuilt]. rewrite (reconstruct_rebuilt rng k e He). cbn [bind].
  rewrite IH. reflexivity.
Qed.

Lemma map_reconstruct_null (rng : Crypto.entropy) (k : nat) (elems : list json) :
  In JNull elems -> map_reconstruct rng k elems = Throw TypeError.
Proof.
  revert k. induction elems as [|e elems IH]; intros k Hin; [destruct Hin|].
  cbn [map_reconstruct].
  destruct e; try (destruct Hin as [Hin|Hin]; [discriminate Hin|];
                   cbn [reconstruct get bind]; rewrite (IH _ Hin); reflexivity).
  reflexivity.
Qed.

Lemma Forall_not_null_dec (elems : list json) :
  Forall (fun e => e <> JNull) elems \/ In JNull elems.
Proof.
  induction elems as [|e elems [IH|IH]].
  - left. constructor.
  - destruct e; try (left; constructor; [discriminate|exact IH]).
    right. left. reflexivity.
  - right. right. exact IH.
Qed.

(** What a successful paste of a string with the marker tells. *)
Lemma structured_paste_inv (rng : Crypto.entropy) (s : jsstring) (o : outcome)
    (pasted : list Raw.Chip) :
  startsWith s CLIPBOARD_MARKER = true ->
  deserialize rng s = Normal o ->
  returned o = Some pasted ->
  console o = []
  /\ exists data v elems,
      parse (payload s) = Normal data
      /\ structured data = Some (v, elems)
      /\ is_one v = true
      /\ Forall (fun e => e <> JNull) elems
      /\ pasted = rebuilt rng 0 elems.
Proof.
  intros Hm Hd Hr.
  destruct (parse (payload s)) as [data|e] eqn:Hp.
  - destruct (structured data) as [[v elems]|] eqn:Hs.
    + rewrite (deserialize_structured rng s data v elems Hm Hp Hs) in Hd.
      destruct (is_one v) eqn:E1; [|injection Hd as <-; discriminate Hr].
      destruct (Forall_not_null_dec elems) as [Hok|Hnull].
      * rewrite (map_reconstruct_rebuilt rng 0 elems Hok) in Hd.
        cbn [bind try_catch] in Hd. injection Hd as <-. cbn in Hr.
        injection Hr as <-. split; [reflexivity|].
        exists data, v, elems. auto.
      * rewrite (map_reconstruct_null rng 0 elems Hnull) in Hd.
        injection Hd as <-. discriminate Hr.
    + rewrite (deserialize_not_structured rng s data Hm Hp Hs) in Hd.
      injection Hd as <-. discriminate Hr.
  - rewrite (deserialize_not_json rng s e Hm Hp) in Hd.
    injection Hd as <-. discriminate Hr.
Qed.

(** X2. A string with the marker gives chips exactly when its payload
    is JSON, of the structured shape, with version 1 and no [null] among
    the elements of [chips]. The chips are then the elements rebuilt one
    by one, in order: the label member, and the value member or the
    label. Members are found by name, a later one of the same name
    winning; other members are ignored. *)
Theorem X2_structured_paste_succeeds_iff (rng : Crypto.entropy) (s : jsstring)
    (pasted : list Raw.Chip) :
  startsWith s CLIPBOARD_MARKER = true ->
  (exists printed, deserialize rng s = Normal (mkOutcome (Some pasted) printed))
  <->
  (exists data v elems,
      parse (payload s) = Normal data
      /\ structured data = Some (v, elems)
      /\ is_one v = true
      /\ Forall (fun e => e <> JNull) elems
      /\ pasted = rebuilt rng 0 elems).
Proof.
  intros Hm. split.
  - intros [printed Hd].
    apply (structured_paste_inv rng s _ pasted Hm Hd eq_refl).
  - intros (data & v & elems & Hp & Hs & E1 & Hok & ->). exists [].
    rewrite (deserialize_structured rng s data v elems Hm Hp Hs), E1.
    rewrite (map_reconstruct_rebuilt rng 0 elems Hok). reflexivity.
Qed.

(** X2 at a payload whose members come in another order, with a member
    the format does not know and a chip without value. *)
Lemma X2_structured_paste_succeeds_iff_witness :
  let s := json_text "__CHIPINPUT__:{'chips':[{'label':'Go','extra':true}],'version':1}" in
  exists printed,
    deserialize (fun _ => 0) s =
    Normal (mkOutcome
              (Some [Raw.mkChip (Crypto.randomUUID 0) (Some (JStr (lit "Go")))
                                (Some (JStr (lit "Go"))) false false])
              printed).
Proof.
  intros s.
  apply (proj2 (X2_structured_paste_succeeds_iff (fun _ => 0) s _ eq_refl)).
  exists (JObj [(lit "chips", JArr [JObj [(lit "label", JStr (lit "Go"));
                                          (lit "extra", JBool true)]]);
                (lit "version", JNum (mkNumber false 1 0))]),
         (mkNumber false 1 0),
         [JObj [(lit "label", JStr (lit "Go")); (lit "extra", JBool true)]].
  split; [vm_compute; reflexivity|]. split; [reflexivity|]. split; [reflexivity|].
  split; [repeat constructor; discriminate|reflexivity].
Defined.

(** ** What every pasted chip is like *)

Lemma rebuilt_ids (rng : Crypto.entropy) (k : nat) (elems : list json) :
  map Raw.id (rebuilt rng k elems) =
  map (fun i => Crypto.randomUUID (rng i)) (seq k (length (rebuilt rng k elems))).
Proof.
  revert k. induction elems as [|e elems IH]; intros k; [reflexivity|].
  cbn [rebuilt map length seq Raw.id]. rewrite <- IH. reflexivity.
Qed.

Lemma rebuilt_flags (rng : Crypto.entropy) (k : nat) (elems : list json) :
  Forall (fun c => Raw.selected c = false /\ Raw.disabled c = false) (rebuilt rng k elems).
Proof.
  revert k. induction elems as [|e elems IH]; intros k; constructor;
    [split; reflexivity|apply IH].
Qed.

Lemma map_labels_ids (rng : Crypto.entropy) (k : nat) (labels : list jsstring) :
  map Raw.id (map_labels rng k labels) =
  map (fun i => Crypto.randomUUID (rng i)) (seq k (length (map_labels rng k labels))).
Proof.
  revert k. induction labels as [|l labels IH]; intros k; [reflexivity|].
  cbn [map_labels map length seq Raw.id]. rewrite <- IH. reflexivity.
Qed.

Lemma map_labels_flags (rng : Crypto.entropy) (k : nat) (labels : list jsstring) :
  Forall (fun c => Raw.selected c = false /\ Raw.disabled c = false)
         (map_labels rng k labels).
Proof.
  revert k. induction labels as [|l labels IH]; intros k; constructor;
    [split; reflexivity|apply IH].
Qed.

(** X3. Whatever the string, the chips [deserialize] returns are never
    selected and never disabled, their ids are the UUIDs drawn during
    the call, in order, and nothing was printed. From a string without
    the marker the list returned is never empty. *)
Theorem X3_pasted_chips_fresh_unselected (rng : Crypto.entropy) (s : jsstring)
    (o : outcome) (pasted : list Raw.Chip) :
  deserialize rng s = Normal o ->
  returned o = Some pasted ->
  map Raw.id pasted = fresh_ids rng (length pasted)
  /\ Forall (fun c => Raw.selected c = false /\ Raw.disabled c = false) pasted
  /\ console o = []
  /\ (startsWith s CLIPBOARD_MARKER = false -> pasted <> []).
Proof.
  intros Hd Hr. destruct (startsWith s CLIPBOARD_MARKER) eqn:Hm.
  - destruct (structured_paste_inv rng s o pasted Hm Hd Hr)
      as (Hc & data & v & elems & _ & _ & _ & _ & ->).
    split; [apply rebuilt_ids|]. split; [apply rebuilt_flags|].
    split; [exact Hc|discriminate].
  - rewrite (deserialize_plain_text rng s Hm) in Hd. injection Hd as <-.
    cbn [returned console] in *.
    destruct (plain_labels s) as [|l labels]; [discriminate Hr|].
    injection Hr as <-.
    split; [exact (map_labels_ids rng 0 (l :: labels))|].
    split; [exact (map_labels_flags rng 0 (l :: labels))|].
    split; [reflexivity|]. intros _. discriminate.
Qed.

(** X3 at a text of two labels. *)
Lemma X3_pasted_chips_fresh_unselected_witness :
  exists o pasted,
    deserialize (fun k => N.of_nat k) (lit "Go, Rust") = Normal o
    /\ returned o = Some pasted
    /\ map Raw.id pasted = fresh_ids (fun k => N.of_nat k) (length pasted)
    /\ Forall (fun c => Raw.selected c = false /\ Raw.disabled c = false) pasted
    /\ console o = []
    /\ pasted <> [].
Proof.
  eexists _, _. split; [vm_compute; reflexivity|]. split; [reflexivity|].
  destruct (X3_pasted_chips_fresh_unselected (fun k => N.of_nat k) (lit "Go, Rust") _ _
              eq_refl eq_refl) as (H1 & H2 & H3 & H4).
  split; [exact H1|]. split; [exact H2|]. split; [exact H3|]. apply H4. reflexivity.
Defined.

(** ** White space and other text around the payload *)

Lemma parse_object_rest (depth : nat) (ms : list (jsstring * jsstring * json)) :
  ms <> [] ->
  Forall (fun m => reads_back depth (snd (fst m)) (snd m)) ms ->
  forall fuel r, (S (depth + length ms) <= fuel)%nat ->
    parse_value fuel ((123 :: join [44] (map member_text ms) ++ [125]) ++ r) =
    Parsed (JObj (map member_value ms)) r.
Proof.
  intros Hne HF fuel r L.
  destruct fuel as [|fuel]; [lia|].
  pose proof (parse_members_join depth ms Hne HF fuel r ltac:(lia)) as Hp.
  destruct (join_members_head ms Hne) as [tail Ht].
  rewrite <- app_comm_cons, <- app_assoc.
  change ([125] ++ r) with (125 :: r).
  rewrite Ht in *. rewrite <- app_comm_cons in *.
  cbn [parse_value]. change (123 =? 34) with false. change (123 =? 91) with false.
  change (123 =? 123) with true. cbv beta iota.
  rewrite (skip_ws_token 34 _ eq_refl).
  change (34 =? 125) with false. cbv beta iota.
  rewrite Hp. reflexivity.
Qed.

Lemma parse_data_rest (cs : list SerializedChip) (fuel : nat) (rest : jsstring) :
  (9 + length cs <= fuel)%nat ->
  parse_value fuel (stringify (mkData CLIPBOARD_VERSION cs) ++ rest) =
  Parsed (json_of_data (mkData CLIPBOARD_VERSION cs)) rest.
Proof.
  intros L.
  pose (ms := [(lit "version", Number_toString CLIPBOARD_VERSION,
                JNum (mkNumber false 1 0));
               (lit "chips", print_array (map stringify_chip cs),
                JArr (map json_of_chip cs))]).
  change (stringify (mkData CLIPBOARD_VERSION cs))
    with (123 :: join [44] (map member_text ms) ++ [125]).
  change (json_of_data (mkData CLIPBOARD_VERSION cs))
    with (JObj (map member_value ms)).
  apply (parse_object_rest (6 + length cs) ms); [discriminate| |simpl; lia].
  apply Forall_cons; [|apply Forall_cons; [|apply Forall_nil]]; cbn [fst snd].
  - apply (reads_back_mono 1); [lia|apply reads_back_version].
  - apply reads_back_chips.
Qed.

Lemma skip_ws_app (ws t : jsstring) :
  Forall (fun c => is_ws c = true) ws -> skip_ws (ws ++ t) = skip_ws t.
Proof.
  induction 1 as [|c ws Hc H IH]; [reflexivity|]. simpl. rewrite Hc. exact IH.
Qed.

(** [JSON.parse] on the text of a payload between white space and any
    other text. *)
Lemma parse_stringify_around (cs : list SerializedChip) (ws tail : jsstring) :
  Forall (fun c => is_ws c = true) ws ->
  parse (ws ++ stringify (mkData CLIPBOARD_VERSION cs) ++ tail) =
  match skip_ws tail with
  | [] => Normal (json_of_data (mkData CLIPBOARD_VERSION cs))
  | _ :: _ => Throw SyntaxError
  end.
Proof.
  intros Hws. unfold parse. rewrite (skip_ws_app ws _ Hws).
  assert (Htok : forall t, skip_ws (stringify (mkData CLIPBOARD_VERSION cs) ++ t)
                           = stringify (mkData CLIPBOARD_VERSION cs) ++ t)
    by reflexivity.
  rewrite Htok, parse_data_rest; [reflexivity|].
  unfold fuel_for. rewrite !length_app.
  pose proof (stringify_length cs). lia.
Qed.

(** X4. White space between the marker and the payload, and after the
    payload, changes nothing to a paste; any other text after the payload
    makes the whole paste fail with the parse error. *)
Theorem X4_payload_surroundings (rng : Crypto.entropy) (T : list Chip)
    (ws tail : jsstring) :
  Forall (fun c => is_ws c = true) ws ->
  deserialize rng (CLIPBOARD_MARKER ++ ws
                   ++ stringify (mkData CLIPBOARD_VERSION (map clean T)) ++ tail) =
  match skip_ws tail with
  | [] => deserialize rng (serialize T)
  | _ :: _ => Normal (mkOutcome null [error_failed_to_parse SyntaxError])
  end.
Proof.
  intros Hws.
  pose proof (parse_stringify_around (map clean T) ws tail Hws) as Hp.
  destruct (skip_ws tail) as [|c t].
  - rewrite deserialize_serialize.
    rewrite (deserialize_structured rng _
               (json_of_data (mkData CLIPBOARD_VERSION (map clean T)))
               (mkNumber false 1 0) (map json_of_chip (map clean T))).
    + change (is_one (mkNumber false 1 0)) with true. cbv iota.
      rewrite map_reconstruct_chips. reflexivity.
    + apply startsWith_app.
    + rewrite payload_marker. exact Hp.
    + reflexivity.
  - apply deserialize_not_json; [apply startsWith_app|].
    rewrite payload_marker. exact Hp.
Qed.

(** X4 at a payload followed by a line break, and at one followed by a
    second payload. *)
Lemma X4_payload_surroundings_witness :
  let T := [mkChip (lit "1") (lit "React") (Some (lit "React")) (Some true) None] in
  deserialize (fun _ => 0) (serialize T ++ [10]) = deserialize (fun _ => 0) (serialize T)
  /\ deserialize (fun _ => 0) (serialize T ++ serialize T)
     = Normal (mkOutcome null [error_failed_to_parse SyntaxError]).
Proof.
  intros T. split.
  - exact (X4_payload_surroundings (fun _ => 0) T [] [10] (Forall_nil _)).
  - exact (X4_payload_surroundings (fun _ => 0) T [] (serialize T) (Forall_nil _)).
Defined.

(** ** [toPlainText] and the plain-text paste *)

Lemma split_no_sep (sep : N) (a : jsstring) :
  ~ In sep a -> split sep a = [a].
Proof.
  induction a as [|c a IH]; intros H; [reflexivity|]. simpl.
  destruct (N.eqb_spec c sep) as [->|Hne]; [exfalso; apply H; left; reflexivity|].
  rewrite IH; [reflexivity|]. intros Hin. apply H. right. exact Hin.
Qed.

Lemma split_app_sep (sep : N) (a b : jsstring) :
  ~ In sep a -> split sep (a ++ sep :: b) = a :: split sep b.
Proof.
  induction a as [|c a IH]; intros H.
  - simpl. rewrite N.eqb_refl. reflexivity.
  - simpl. destruct (N.eqb_spec c sep) as [->|Hne]; [exfalso; apply H; left; reflexivity|].
    rewrite IH; [reflexivity|]. intros Hin. apply H. right. exact Hin.
Qed.

Lemma trimStart_trimmed (t : jsstring) :
  (forall c t', t = c :: t' -> isWhiteSpace c = false) -> trimStart t = t.
Proof.
  destruct t as [|c t]; intros H; [reflexivity|].
  simpl. rewrite (H c t eq_refl). reflexivity.
Qed.

(** A string with no white space at either end is its own trimming. *)
Lemma trim_trimmed (t : jsstring) : trimmed t -> trim t = t.
Proof.
  intros [Hhead Hlast]. unfold trim, trimEnd.
  rewrite (trimStart_trimmed t Hhead).
  rewrite trimStart_trimmed; [apply rev_involutive|].
  intros c t' E. apply (Hlast c (rev t')).
  rewrite <- (rev_involutive t), E. reflexivity.
Qed.

Lemma trim_space_trimmed (t : jsstring) : trimmed t -> trim (32 :: t) = t.
Proof. intros H. exact (trim_trimmed t H). Qed.

Lemma not_in_app (x : N) (a b : jsstring) : ~ In x a -> ~ In x b -> ~ In x (a ++ b).
Proof. intros Ha Hb Hin. apply in_app_or in Hin as [H|H]; tauto. Qed.

(** The pieces of the text [toPlainText] writes: the first label, and
    every other label after a blank. *)
Lemma split_join_prefix (labels : list jsstring) :
  forall (p l : jsstring),
    ~ In 44 p -> Forall (fun x => ~ In 44 x) (l :: labels) ->
    split 44 (p ++ join [44; 32] (l :: labels)) = (p ++ l) :: map (cons 32) labels.
Proof.
  induction labels as [|l2 labels IH]; intros p l Hp H;
    inversion H as [|? ? Hl H']; subst.
  - cbn [join map]. apply split_no_sep. apply not_in_app; assumption.
  - rewrite (join_cons [44; 32] l (l2 :: labels) ltac:(discriminate)).
    change ([44; 32] ++ join [44; 32] (l2 :: labels))
      with (44 :: ([32] ++ join [44; 32] (l2 :: labels))).
    rewrite app_assoc.
    rewrite (split_app_sep 44 (p ++ l) _ (not_in_app 44 p l Hp Hl)).
    rewrite (IH [32] l2); [reflexivity| |exact H'].
    intros [E|[]]. discriminate E.
Qed.

Lemma split_join_labels (l : jsstring) (labels : list jsstring) :
  Forall (fun x => ~ In 44 x) (l :: labels) ->
  split 44 (join (lit ", ") (l :: labels)) = l :: map (cons 32) labels.
Proof.
  intros H. change (lit ", ") with [44; 32].
  exact (split_join_prefix labels [] l (fun F => F) H).
Qed.

Lemma plain_labels_toPlainText (T : list Chip) :
  Forall (fun c => trimmed (label c) /\ label c <> [] /\ ~ In 44 (label c)) T ->
  T <> [] ->
  plain_labels (toPlainText T) = map label T.
Proof.
  intros H Hne. destruct T as [|c T]; [congruence|].
  unfold plain_labels, toPlainText. cbn [map].
  rewrite split_join_labels.
  - inversion H as [|? ? (Ht & Hn & _) H']; subst.
    cbn [map filter]. rewrite (trim_trimmed _ Ht).
    destruct (label c) as [|x l] eqn:E; [congruence|]. cbn [str_eqb negb].
    f_equal. clear - H'.
    induction H' as [|c' T' (Ht' & Hn' & _) H' IH]; [reflexivity|].
    cbn [map filter]. rewrite (trim_space_trimmed _ Ht').
    destruct (label c') as [|x' l'] eqn:E'; [congruence|]. cbn [str_eqb negb].
    rewrite IH. reflexivity.
  - apply Forall_forall. intros x Hx.
    change (label c :: map label T) with (map label (c :: T)) in Hx.
    apply in_map_iff in Hx as [c0 [<- Hc0]].
    rewrite Forall_forall in H. apply (H c0 Hc0).
Qed.

(** X5. The text [toPlainText] writes for a non-empty list is pasted
    back as chips with the same labels in the same order, each label also
    as value, provided the labels are not empty, have no white space at
    either end and no comma, and the text does not start with the
    marker. *)
Theorem X5_toPlainText_pasted_back (rng : Crypto.entropy) (T : list Chip) :
  Forall (fun c => trimmed (label c) /\ label c <> [] /\ ~ In 44 (label c)) T ->
  T <> [] ->
  isChipInputFormat (toPlainText T) = false ->
  exists pasted chips,
    deserialize rng (toPlainText T) = Normal (mkOutcome (Some pasted) [])
    /\ all_typed pasted = Some chips
    /\ map label chips = map label T
    /\ map value chips = map (fun c => Some (label c)) T.
Proof.
  intros H Hne Hm. unfold isChipInputFormat in Hm.
  rewrite (deserialize_plain_text rng _ Hm), (plain_labels_toPlainText T H Hne).
  destruct T as [|c T]; [congruence|].
  destruct (map_labels_typed rng 0 (map label (c :: T))) as (chips & H1 & H2 & H3 & _).
  exists (map_labels rng 0 (map label (c :: T))), chips.
  split; [reflexivity|]. split; [exact H1|]. split; [exact H2|].
  rewrite H3, map_map. reflexivity.
Qed.

(** The conditions on a label, as a test. *)
Lemma label_conditions (l : jsstring) :
  negb (str_eqb l []) && negb (existsb (N.eqb 44) l)
  && negb (isWhiteSpace (hd 0 l)) && negb (isWhiteSpace (last l 0)) = true ->
  trimmed l /\ l <> [] /\ ~ In 44 l.
Proof.
  intros H. apply andb_true_iff in H as [H Hlast].
  apply andb_true_iff in H as [H Hhead]. apply andb_true_iff in H as [Hne Hc].
  apply negb_true_iff in Hlast, Hhead, Hne, Hc.
  split; [split|split].
  - intros c t' ->. exact Hhead.
  - intros c t' ->. rewrite last_last in Hlast. exact Hlast.
  - intros ->. discriminate Hne.
  - intros Hin. assert (E : existsb (N.eqb 44) l = true).
    { apply existsb_exists. exists 44. split; [exact Hin|apply N.eqb_refl]. }
    congruence.
Qed.

(** X5 at React, Vite. *)
Lemma X5_toPlainText_pasted_back_witness :
  let T := [mkChip (lit "1") (lit "React") None (Some true) None;
            mkChip (lit "3") (lit "Vite") (Some (lit "vite")) None None] in
  exists pasted chips,
    deserialize (fun _ => 0) (toPlainText T) = Normal (mkOutcome (Some pasted) [])
    /\ all_typed pasted = Some chips
    /\ map label chips = [lit "React"; lit "Vite"]
    /\ map value chips = [Some (lit "React"); Some (lit "Vite")].
Proof.
  intros T. apply (X5_toPlainText_pasted_back (fun _ => 0) T).
  - apply Forall_cons; [apply label_conditions; reflexivity|].
    apply Forall_cons; [apply label_conditions; reflexivity|]. apply Forall_nil.
  - discriminate.
  - reflexivity.
Defined.

End SerializerMore.

(* ================================================================== *)
(** * Further properties of the handlers                               *)
(* ================================================================== *)

Module ChipInputMore.
Import ChipInput ChipInputFacts ChipInputEvents.

Lemma existsb_select_all (L : list Chip) :
  L <> [] -> existsb is_selected (map (with_selected true) L) = true.
Proof. destruct L as [|c L]; [congruence|reflexivity]. Qed.

Lemma filter_unselected_select_all (L : list Chip) :
  filter (fun c => negb (is_selected c)) (map (with_selected true) L) = [].
Proof. induction L as [|c L IH]; [reflexivity|exact IH]. Qed.

Lemma select_all_then_remove (L : list Chip) (inputValue : jsstring) :
  removeSelectedOrLast (map (with_selected true) L) inputValue = [].
Proof.
  destruct L as [|c L].
  - unfold removeSelectedOrLast, removeChips. simpl.
    destruct inputValue; reflexivity.
  - rewrite removeChips_selected by (apply existsb_select_all; discriminate).
    apply filter_unselected_select_all.
Qed.

Lemma callback_effects_effects (l : list effect) : callback_effects (effects l) = l.
Proof. induction l as [|e l IH]; [reflexivity|]. simpl. rewrite IH. reflexivity. Qed.

(** X6. Cmd/Ctrl+A followed by Delete or Backspace on the container
    empties the list, whatever was selected before and whatever the input
    field holds. *)
Theorem X6_select_all_delete_empties (L : list Chip) (onCopy : bool)
    (inputValue : jsstring) (e1 e2 : KeyboardEvent) :
  metaKey e1 || ctrlKey e1 = true ->
  key e1 = lit "a" ->
  key e2 = lit "Delete" \/ key e2 = lit "Backspace" ->
  let L1 := next_value L (callback_effects (handleKeyDown L onCopy inputValue e1)) in
  let L2 := next_value L1 (callback_effects (handleKeyDown L1 onCopy inputValue e2)) in
  L1 = map (with_selected true) L /\ L2 = [].
Proof.
  intros Hmod Ha Hdel L1.
  assert (E1 : L1 = map (with_selected true) L).
  { unfold L1, handleKeyDown. rewrite Hmod, Ha. reflexivity. }
  split; [exact E1|]. rewrite E1.
  assert (Hk : handleKeyDown (map (with_selected true) L) onCopy inputValue e2
               = Effect preventDefault
                 :: effects (removeChips (map (with_selected true) L) inputValue)).
  { unfold handleKeyDown.
    destruct Hdel as [-> | ->]; destruct (metaKey e2 || ctrlKey e2); reflexivity. }
  rewrite Hk. cbn [callback_effects]. rewrite callback_effects_effects.
  change (next_value ?l (preventDefault :: ?es)) with (next_value l es).
  apply select_all_then_remove.
Qed.

(** X6 at three chips with some text typed. *)
Lemma X6_select_all_delete_empties_witness :
  let L := [mkChip (lit "1") (lit "React") None None None;
            mkChip (lit "2") (lit "TypeScript") None (Some true) None;
            mkChip (lit "3") (lit "Vite") None (Some false) (Some true)] in
  let L1 := next_value L (callback_effects
              (handleKeyDown L false (lit "abc") (mkEvent (lit "a") false true))) in
  next_value L1 (callback_effects
     (handleKeyDown L1 false (lit "abc") (mkEvent (lit "Backspace") false false))) = [].
Proof.
  intros L L1.
  exact (proj2 (X6_select_all_delete_empties L false (lit "abc")
                  (mkEvent (lit "a") false true) (mkEvent (lit "Backspace") false false)
                  eq_refl eq_refl (or_intror eq_refl))).
Defined.

(** ** Clearing the selection *)

Lemma selectedChips_deselected (L : list Chip) :
  selectedChips (map (with_selected false) L) = [].
Proof. unfold selectedChips. induction L as [|c L IH]; [reflexivity|exact IH]. Qed.

Lemma existsb_false_Forall (L : list Chip) :
  existsb is_selected L = false <-> Forall (fun c => is_selected c = false) L.
Proof.
  induction L as [|c L IH]; simpl.
  - split; [constructor|reflexivity].
  - rewrite orb_false_iff, IH. split.
    + intros [H1 H2]. constructor; assumption.
    + intros H. inversion H; subst. split; assumption.
Qed.

(** X7. Escape (and the focus of the input) asks for a new list exactly
    when some chip is selected. Afterwards no chip is selected, every
    chip is otherwise as it was, and doing it again asks for nothing. *)
Theorem X7_clearSelection_idempotent (L : list Chip) :
  let R := next_value L (clearSelection L) in
  (changed (clearSelection L) = None <-> Forall (fun c => is_selected c = false) L)
  /\ Forall (fun c => is_selected c = false) R
  /\ Forall2 same_but_selected L R
  /\ clearSelection R = []
  /\ handleInputFocus R = [].
Proof.
  intros R. unfold R, handleInputFocus, clearSelection, selectedChips.
  rewrite <- existsb_false_Forall.
  pose proof (existsb_filter_length is_selected L) as HL.
  destruct (existsb is_selected L) eqn:E.
  - assert (Hne : Nat.eqb (length (filter is_selected L)) 0 = false).
    { destruct (filter is_selected L); [discriminate HL|reflexivity]. }
    rewrite Hne. cbn.
    split; [split; discriminate|].
    split.
    { apply Forall_forall. intros c Hc. apply in_map_iff in Hc as [c0 [<- _]]. reflexivity. }
    split; [apply Forall2_same_deselect|].
    pose proof (selectedChips_deselected L) as Hs. unfold selectedChips in Hs.
    rewrite Hs. split; reflexivity.
  - assert (Hz : Nat.eqb (length (filter is_selected L)) 0 = true).
    { destruct (filter is_selected L); [reflexivity|discriminate HL]. }
    rewrite Hz. cbn. rewrite Hz.
    split; [split; reflexivity|].
    split; [apply existsb_false_Forall; exact E|].
    split; [apply Forall2_same_refl|]. split; reflexivity.
Qed.

(** ** Cmd/Ctrl+click *)

Lemma toggle_multi_eq (L : list Chip) (t : jsstring) :
  toggleSelection L t true =
  map (fun c => if str_eqb (id c) t then with_selected (negb (is_selected c)) c else c) L.
Proof. reflexivity. Qed.

(** X8. A click with Cmd/Ctrl held inverts [selected] on the chips with
    the clicked id and hands every other chip back as it is. A second
    such click on the same id brings back the selection there was: the
    same chips are selected as before the first. *)
Theorem X8_multi_select_toggle (L : list Chip) (t : jsstring) :
  let R := toggleSelection L t true in
  Forall2 (fun c r => if str_eqb (id c) t
                      then r = with_selected (negb (is_selected c)) c
                      else r = c) L R
  /\ map is_selected (toggleSelection R t true) = map is_selected L
  /\ Forall2 same_but_selected L (toggleSelection R t true).
Proof.
  intros R. unfold R. rewrite !toggle_multi_eq. split; [|split].
  - induction L as [|c L IH]; simpl; constructor; [|exact IH].
    destruct (str_eqb (id c) t); reflexivity.
  - induction L as [|c L IH]; [reflexivity|]. cbn [map]. rewrite IH. f_equal.
    destruct (str_eqb (id c) t) eqn:E.
    + cbn [id with_selected]. rewrite E. unfold is_selected at 1 2. cbn.
      apply negb_involutive.
    + rewrite E. reflexivity.
  - induction L as [|c L IH]; simpl; constructor; [|exact IH].
    destruct (str_eqb (id c) t) eqn:E.
    + cbn [id with_selected]. rewrite E. repeat split.
    + rewrite E. apply same_but_selected_refl.
Qed.

(** ** Adding chips *)

Lemma filter_selected_app_deselected (L added : list Chip) :
  filter is_selected (map (with_selected false) L ++ added) = filter is_selected added.
Proof.
  rewrite filter_app. pose proof (selectedChips_deselected L) as H.
  unfold selectedChips in H. rewrite H. reflexivity.
Qed.

(** X9. When Enter, a separator or a paste adds chips, the list handed
    to [onChange] is the current chips, all deselected, followed by the
    chips the host supplied, as supplied; at least one chip is added, the
    only chips selected are supplied ones, and the input field is
    emptied. *)
Theorem X9_adding_clears_selection_and_input (c : component) (op : operation)
    (R : list Chip) :
  op = CreateFromText \/ (exists newValue, op = InputChange newValue)
  \/ (exists clipboardData, op = AppendPasted clipboardData) ->
  changed (perform c op) = Some R ->
  R = map (with_selected false) (ChipInput.value c) ++ supplied c op
  /\ supplied c op <> []
  /\ length R = length (ChipInput.value c) + length (supplied c op)
  /\ filter is_selected R = filter is_selected (supplied c op)
  /\ next_inputValue (inputValue c) (perform c op) = [].
Proof.
  destruct c as [L onPaste onAdd separators inputValue].
  intros [-> | [[newValue ->] | [clipboardData ->]]] H;
    cbn [perform supplied ChipInput.value ChipInput.onAdd ChipInput.inputValue
         ChipInput.onPaste ChipInput.separators] in *.
  - pose proof H as H0.
    apply createChipFromInput_changed in H as (add & chip & -> & E & ->).
    rewrite E.
    split; [reflexivity|]. split; [discriminate|].
    split; [rewrite length_app, length_map; reflexivity|].
    split; [apply filter_selected_app_deselected|].
    unfold createChipFromInput in *. rewrite E in *.
    destruct (negb (truthy_str (trim inputValue))); [discriminate H0|reflexivity].
  - pose proof H as H0.
    apply handleInputChange_changed in H as (add & chip & -> & E & ->).
    rewrite E.
    split; [reflexivity|]. split; [discriminate|].
    split; [rewrite length_app, length_map; reflexivity|].
    split; [apply filter_selected_app_deselected|].
    unfold handleInputChange in *.
    destruct (Nat.ltb 0 (length separators)); [|discriminate H0].
    destruct (lastChar newValue) as [ch|]; [|discriminate H0].
    destruct (includes separators ch); [|discriminate H0].
    destruct (truthy_str _); [|discriminate H0].
    rewrite E. reflexivity.
  - pose proof H as H0.
    apply handlePaste_changed in H as (paste & newChips & -> & E & Hne & ->).
    rewrite E. cbn [or_else].
    split; [reflexivity|]. split; [exact Hne|].
    split; [rewrite length_app, length_map; reflexivity|].
    split; [apply filter_selected_app_deselected|].
    unfold handlePaste. rewrite E.
    destruct newChips as [|x xs]; [congruence|reflexivity].
Qed.

(** X9 at Enter on a list with a selected chip. *)
Lemma X9_adding_clears_selection_and_input_witness :
  let react := mkChip (lit "1") (lit "React") None (Some true) None in
  let go := mkChip (lit "9") (lit "Go") None None None in
  let c := mkComponent [react] None (Some (fun _ => Some go)) [] (lit " Go ") in
  filter is_selected [with_selected false react; go] = []
  /\ next_inputValue (lit " Go ") (perform c CreateFromText) = [].
Proof.
  intros react go c.
  destruct (X9_adding_clears_selection_and_input c CreateFromText
              [with_selected false react; go] (or_introl eq_refl) eq_refl)
    as (_ & _ & _ & H4 & H5).
  split; [exact H4|exact H5].
Defined.

(** ** Copying *)

(** X10. The handlers of the container call [onCopy] only on Cmd/Ctrl+C,
    only with the chips that are selected, in list order, and never with
    an empty list; that key press asks for no new list and leaves the
    input field alone. *)
Theorem X10_copy_hands_over_the_selection (L : list Chip) (onCopy : bool)
    (inputValue : jsstring) (e : KeyboardEvent) (copied : list Chip) :
  In (Copy copied) (handleKeyDown L onCopy inputValue e) ->
  copied = filter is_selected L
  /\ copied <> []
  /\ subsequence copied L
  /\ key e = lit "c" /\ metaKey e || ctrlKey e = true /\ onCopy = true
  /\ handleKeyDown L onCopy inputValue e = [Effect preventDefault; Copy copied].
Proof.
  unfold handleKeyDown. intros Hin.
  assert (Hno : forall l, ~ In (Copy copied) (effects l)).
  { intros l H. apply in_map_iff in H as [x [Hx _]]. discriminate Hx. }
  destruct (metaKey e || ctrlKey e) eqn:Hmod; cbn [andb] in *.
  - destruct (str_eqb (key e) (lit "a")).
    { destruct Hin as [H|H]; [discriminate H|destruct (Hno _ H)]. }
    destruct (str_eqb (key e) (lit "c")) eqn:Hc; cbn [andb] in *.
    + destruct (Nat.ltb 0 (length (selectedChips L))) eqn:Hsel.
      * destruct onCopy; [|destruct Hin as [H|[]]; discriminate H].
        destruct Hin as [H|[H|[]]]; [discriminate H|]. injection H as <-.
        unfold selectedChips in *. apply str_eqb_eq in Hc.
        split; [reflexivity|]. split.
        { destruct (filter is_selected L); [discriminate Hsel|discriminate]. }
        split; [apply subsequence_filter|]. repeat split; assumption.
      * destruct (str_eqb (key e) (lit "v")); [destruct Hin|].
        destruct (str_eqb (key e) (lit "Backspace") || str_eqb (key e) (lit "Delete")).
        { destruct Hin as [H|H]; [discriminate H|destruct (Hno _ H)]. }
        destruct (str_eqb (key e) (lit "Escape")); [|destruct Hin].
        destruct Hin as [H|H]; [discriminate H|destruct (Hno _ H)].
    + destruct (str_eqb (key e) (lit "v")); [destruct Hin|].
      destruct (str_eqb (key e) (lit "Backspace") || str_eqb (key e) (lit "Delete")).
      { destruct Hin as [H|H]; [discriminate H|destruct (Hno _ H)]. }
      destruct (str_eqb (key e) (lit "Escape")); [|destruct Hin].
      destruct Hin as [H|H]; [discriminate H|destruct (Hno _ H)].
  - destruct (str_eqb (key e) (lit "Backspace") || str_eqb (key e) (lit "Delete")).
    { destruct Hin as [H|H]; [discriminate H|destruct (Hno _ H)]. }
    destruct (str_eqb (key e) (lit "Escape")); [|destruct Hin].
    destruct Hin as [H|H]; [discriminate H|destruct (Hno _ H)].
Qed.

(** X10 at Ctrl+C with the second of three chips selected. *)
Lemma X10_copy_hands_over_the_selection_witness :
  let react := mkChip (lit "1") (lit "React") None None None in
  let ts := mkChip (lit "2") (lit "TypeScript") None (Some true) None in
  let L := [react; ts; react] in
  handleKeyDown L true (lit "x") (mkEvent (lit "c") false true)
  = [Effect preventDefault; Copy [ts]].
Proof.
  intros react ts L.
  destruct (X10_copy_hands_over_the_selection L true (lit "x")
              (mkEvent (lit "c") false true) [ts] (or_intror (or_introl eq_refl)))
    as (_ & _ & _ & _ & _ & _ & H).
  exact H.
Defined.

(** ** A key pressed in the input field *)

Lemma in_effects (x : effect) (l : list effect) : In (Effect x) (effects l) <-> In x l.
Proof.
  unfold effects. rewrite in_map_iff. split.
  - intros [y [E H]]. injection E as ->. exact H.
  - intros H. exists x. split; [reflexivity|exact H].
Qed.

Lemma callback_effects_app (a b : list action) :
  callback_effects (a ++ b) = callback_effects a ++ callback_effects b.
Proof.
  induction a as [|x a IH]; [reflexivity|]. destruct x; simpl; rewrite IH; reflexivity.
Qed.

Lemma changed_app (a b : list effect) :
  changed (a ++ b) = match changed b with Some R => Some R | None => changed a end.
Proof.
  unfold changed. rewrite fold_left_app. generalize (fold_left
    (fun acc e => match e with onChange chips => Some chips | _ => acc end) a None).
  induction b as [|e b IH]; intros acc; [destruct acc; reflexivity|].
  simpl. destruct e; try apply IH.
  rewrite IH. destruct (fold_left _ b None); reflexivity.
Qed.

Ltac one_call :=
  intros R1 R2 H1 H2; simpl in H1, H2;
  repeat match goal with
         | H : _ \/ _ |- _ => destruct H
         | H : False |- _ => destruct H
         | H : _ = _ |- _ => first [discriminate H | injection H as <-]
         end; reflexivity.

Lemma removeChips_once (L : list Chip) (inputValue : jsstring) :
  calls_onChange_once (removeChips L inputValue).
Proof.
  unfold removeChips. destruct (Nat.ltb 0 (length (selectedChips L))); [one_call|].
  destruct (Nat.ltb 0 (length L) && str_eqb inputValue []); one_call.
Qed.

Lemma clearSelection_once (L : list Chip) : calls_onChange_once (clearSelection L).
Proof. unfold clearSelection. destruct (Nat.eqb _ 0); one_call. Qed.

Lemma selectAllChips_once (L : list Chip) : calls_onChange_once (selectAllChips L).
Proof. unfold selectAllChips. one_call. Qed.

Lemma createChipFromInput_once (L : list Chip) onAdd (inputValue : jsstring) :
  calls_onChange_once (createChipFromInput L onAdd inputValue).
Proof.
  unfold createChipFromInput. destruct onAdd as [add|]; [|one_call].
  destruct (negb (truthy_str (trim inputValue))); [one_call|].
  destruct (add (trim inputValue)); one_call.
Qed.

Lemma handleKeyDown_Backspace (L : list Chip) (onCopy : bool) (inputValue : jsstring)
    (e : KeyboardEvent) :
  key e = lit "Backspace" ->
  handleKeyDown L onCopy inputValue e
  = Effect preventDefault :: effects (removeChips L inputValue).
Proof.
  intros Hk. unfold handleKeyDown. rewrite Hk.
  destruct (metaKey e || ctrlKey e); reflexivity.
Qed.

Lemma handleKeyDown_Enter (L : list Chip) (onCopy : bool) (inputValue : jsstring)
    (e : KeyboardEvent) :
  key e = lit "Enter" -> handleKeyDown L onCopy inputValue e = [].
Proof.
  intros Hk. unfold handleKeyDown. rewrite Hk.
  destruct (metaKey e || ctrlKey e); reflexivity.
Qed.

Lemma handleKeyDown_Escape (L : list Chip) (onCopy : bool) (inputValue : jsstring)
    (e : KeyboardEvent) :
  key e = lit "Escape" ->
  handleKeyDown L onCopy inputValue e
  = Effect preventDefault :: effects (clearSelection L).
Proof.
  intros Hk. unfold handleKeyDown. rewrite Hk.
  destruct (metaKey e || ctrlKey e); reflexivity.
Qed.

(** The container's handler alone calls [onChange] for one callback. *)
Lemma handleKeyDown_once (L : list Chip) (onCopy : bool) (inputValue : jsstring)
    (e : KeyboardEvent) :
  exists E, calls_onChange_once E
            /\ forall R, In (Effect (onChange R)) (handleKeyDown L onCopy inputValue e)
                         -> In (onChange R) E.
Proof.
  unfold handleKeyDown.
  assert (Hnone : exists E : list effect, calls_onChange_once E
                  /\ forall R, In (Effect (onChange R)) [] -> In (onChange R) E).
  { exists []. split; [one_call|intros R []]. }
  assert (Hcb : forall E, calls_onChange_once E ->
                exists E' : list effect, calls_onChange_once E'
                  /\ forall R, In (Effect (onChange R)) (Effect preventDefault :: effects E)
                               -> In (onChange R) E').
  { intros E HE. exists E. split; [exact HE|].
    intros R [H|H]; [discriminate H|apply in_effects; exact H]. }
  destruct (metaKey e || ctrlKey e && str_eqb (key e) (lit "a"))%bool eqn:T1.
  - destruct ((metaKey e || ctrlKey e) && str_eqb (key e) (lit "a")) eqn:Ta.
    + apply Hcb, selectAllChips_once.
    + destruct ((metaKey e || ctrlKey e) && str_eqb (key e) (lit "c")
                && Nat.ltb 0 (length (selectedChips L))).
      * exists []. split; [one_call|].
        intros R [H|H]; [discriminate H|]. destruct onCopy; simpl in H.
        -- destruct H as [H|[]]. discriminate H.
        -- destruct H.
      * destruct ((metaKey e || ctrlKey e) && str_eqb (key e) (lit "v")); [exact Hnone|].
        destruct (str_eqb (key e) (lit "Backspace") || str_eqb (key e) (lit "Delete"));
          [apply Hcb, removeChips_once|].
        destruct (str_eqb (key e) (lit "Escape")); [apply Hcb, clearSelection_once|exact Hnone].
  - destruct ((metaKey e || ctrlKey e) && str_eqb (key e) (lit "a")) eqn:Ta.
    + apply Hcb, selectAllChips_once.
    + destruct ((metaKey e || ctrlKey e) && str_eqb (key e) (lit "c")
                && Nat.ltb 0 (length (selectedChips L))).
      * exists []. split; [one_call|].
        intros R [H|H]; [discriminate H|]. destruct onCopy; simpl in H.
        -- destruct H as [H|[]]. discriminate H.
        -- destruct H.
      * destruct ((metaKey e || ctrlKey e) && str_eqb (key e) (lit "v")); [exact Hnone|].
        destruct (str_eqb (key e) (lit "Backspace") || str_eqb (key e) (lit "Delete"));
          [apply Hcb, removeChips_once|].
        destruct (str_eqb (key e) (lit "Escape")); [apply Hcb, clearSelection_once|exact Hnone].
Qed.

(** X11. A key pressed in the input field runs the handler of the input
    and then the handler of the container. Whatever the key, all their
    calls of [onChange] carry one and the same list. Backspace in an
    empty input runs [removeChips] in both, and the list that results is
    the one a single run gives. Backspace in an input that holds text,
    with no chip selected, changes no list, yet the container's handler
    calls [preventDefault] on it. *)
Theorem X11_key_in_input (L : list Chip) (onCopy : bool)
    (onAdd : option (jsstring -> option Chip)) (inputValue : jsstring)
    (e : KeyboardEvent) :
  let actions := input_keydown L onCopy onAdd inputValue e in
  (forall R1 R2, In (Effect (onChange R1)) actions ->
                 In (Effect (onChange R2)) actions -> R1 = R2)
  /\ (key e = lit "Backspace" -> inputValue = [] ->
      next_value L (callback_effects actions) = removeSelectedOrLast L [])
  /\ (key e = lit "Backspace" -> inputValue <> [] -> existsb is_selected L = false ->
      actions = [Effect preventDefault]).
Proof.
  intros actions. unfold actions, input_keydown. split; [|split].
  - assert (Hone : forall (E : list effect) (pre post : list action),
               calls_onChange_once E ->
               (forall R, In (Effect (onChange R)) pre -> In (onChange R) E) ->
               (forall R, In (Effect (onChange R)) post -> In (onChange R) E) ->
               forall R1 R2,
                 In (Effect (onChange R1)) (pre ++ post) ->
                 In (Effect (onChange R2)) (pre ++ post) ->
                 R1 = R2).
    { intros E pre post HE Hpre Hk R1 R2 H1 H2.
      apply HE; [apply in_app_or in H1 as [H|H]|apply in_app_or in H2 as [H|H]]; auto. }
    unfold handleInputKeyDown.
    destruct (str_eqb (key e) (lit "Enter")) eqn:HE.
    { apply str_eqb_eq in HE. rewrite (handleKeyDown_Enter L onCopy inputValue e HE).
      apply (Hone (createChipFromInput L onAdd inputValue));
        [apply createChipFromInput_once| |intros R []].
      intros R [H|H]; [discriminate H|apply in_effects; exact H]. }
    destruct (str_eqb (key e) (lit "Backspace")) eqn:HB.
    { apply str_eqb_eq in HB. rewrite (handleKeyDown_Backspace L onCopy inputValue e HB).
      apply (Hone (removeChips L inputValue)); [apply removeChips_once| |].
      - cbn [andb]. destruct (str_eqb inputValue []).
        + destruct (Nat.ltb 0 (length L) || Nat.ltb 0 (length (selectedChips L)));
            [|intros R []].
          intros R [H|H]; [discriminate H|apply in_effects; exact H].
        + rewrite HB. intros R [].
      - intros R [H|H]; [discriminate H|apply in_effects; exact H]. }
    cbn [andb].
    destruct (str_eqb (key e) (lit "Escape")) eqn:HS.
    { apply str_eqb_eq in HS. rewrite (handleKeyDown_Escape L onCopy inputValue e HS).
      apply (Hone (clearSelection L)); [apply clearSelection_once| |].
      - intros R [H|[H|H]]; [discriminate H|discriminate H|apply in_effects; exact H].
      - intros R [H|H]; [discriminate H|apply in_effects; exact H]. }
    destruct (handleKeyDown_once L onCopy inputValue e) as (E & HE1 & HE2).
    apply (Hone E []); [exact HE1|intros R []|exact HE2].
  - intros Hk ->. rewrite (handleKeyDown_Backspace L onCopy [] e Hk).
    unfold handleInputKeyDown. rewrite Hk.
    change (str_eqb (lit "Backspace") (lit "Enter")) with false.
    change (str_eqb (lit "Backspace") (lit "Backspace")) with true. cbn [andb str_eqb].
    unfold removeSelectedOrLast, next_value.
    destruct (Nat.ltb 0 (length L) || Nat.ltb 0 (length (selectedChips L))).
    + rewrite callback_effects_app. cbn [callback_effects].
      rewrite callback_effects_effects.
      change (preventDefault :: removeChips L [])
        with ([preventDefault] ++ removeChips L []).
      rewrite !changed_app. destruct (changed (removeChips L [])); reflexivity.
    + cbn [app callback_effects]. rewrite callback_effects_effects. reflexivity.
  - intros Hk Hne Hsel. rewrite (handleKeyDown_Backspace L onCopy inputValue e Hk).
    unfold handleInputKeyDown. rewrite Hk.
    destruct inputValue as [|x iv]; [congruence|].
    rewrite (removeChips_unchanged L (x :: iv) Hsel (or_intror Hne)). reflexivity.
Qed.

(** X11 at Backspace on React, TypeScript with an empty input, and with
    the input holding text. *)
Lemma X11_key_in_input_witness :
  let react := mkChip (lit "1") (lit "React") None None None in
  let ts := mkChip (lit "2") (lit "TypeScript") None None None in
  let backspace := mkEvent (lit "Backspace") false false in
  next_value [react; ts]
    (callback_effects (input_keydown [react; ts] false None [] backspace)) = [react]
  /\ input_keydown [react; ts] false None (lit "ab") backspace = [Effect preventDefault].
Proof.
  intros react ts backspace. split.
  - destruct (X11_key_in_input [react; ts] false None [] backspace) as (_ & H & _).
    exact (H eq_refl eq_refl).
  - destruct (X11_key_in_input [react; ts] false None (lit "ab") backspace) as (_ & _ & H).
    apply H; [reflexivity|discriminate|reflexivity].
Defined.

(** ** A click, then Delete *)









End ChipInputMore.

(* ================================================================== *)
(** * The demo application wired to the component                      *)
(* ================================================================== *)

Module AppFacts.

Import ChipClipboardSerializer SerializerFacts ChipInputEvents.
Local Open Scope N_scope.

Lemma trim_idempotent (s : jsstring) : trim (trim s) = trim s.
Proof.
  destruct (trim_spec s) as (pre & post & _ & _ & _ & H).
  exact (SerializerMore.trim_trimmed _ H).
Qed.

Lemma lastChar_snoc (s : jsstring) (c : code_unit) :
  ChipInput.lastChar (s ++ [c]) = Some [c].
Proof.
  unfold ChipInput.lastChar. rewrite last_last.
  destruct s; reflexivity.
Qed.

Lemma includes_some (separators : list jsstring) (c : jsstring) :
  ChipInput.includes separators c = true -> Nat.ltb 0 (length separators) = true.
Proof. destruct separators; [discriminate|reflexivity]. Qed.

(** X13. With the application's [handleAdd] as [onAdd], a text is never
    turned down unless it is blank. Enter and a typed separator make the
    same chip of the same text: label and value are the trimmed text,
    the id is drawn, the chip is not selected; it is appended behind the
    deselected list and the input is emptied. A blank text makes no chip
    and no log line: Enter then does nothing, the separator empties the
    input. *)
Theorem X13_demo_onAdd_takes_any_text (r : N) (L : list Chip)
    (separators : list jsstring) (text : jsstring) (c : code_unit) :
  ChipInput.includes separators [c] = true ->
  let onAdd := Some (fun t => fst (App.handleAdd r t)) in
  let chip := createChip r (trim text) (mkOverrides None None None None) in
  let R := map (with_selected false) L ++ [chip] in
  label chip = trim text /\ value chip = Some (trim text)
  /\ id chip = Crypto.randomUUID r /\ is_selected chip = false
  /\ ChipInput.createChipFromInput L onAdd text
     = (if truthy_str (trim text)
        then [ChipInput.onChange R; ChipInput.setInputValue []; ChipInput.focus_input]
        else [])
  /\ ChipInput.handleInputChange L onAdd separators (text ++ [c])
     = (if truthy_str (trim text)
        then [ChipInput.onChange R; ChipInput.setInputValue []]
        else [ChipInput.setInputValue []])
  /\ snd (App.handleAdd r (trim text))
     = (if truthy_str (trim text)
        then [App.addLog (lit "Created chip: " ++ 34 :: trim text ++ [34])]
        else []).
Proof.
  intros Hc onAdd chip R. repeat (split; [reflexivity|]).
  unfold ChipInput.createChipFromInput, ChipInput.handleInputChange, onAdd, App.handleAdd.
  rewrite (includes_some _ _ Hc), lastChar_snoc, Hc.
  unfold slice_0_m1. rewrite removelast_last, !trim_idempotent.
  destruct (truthy_str (trim text)); cbn [negb fst snd]; repeat split; reflexivity.
Qed.

(** X13 at the text [  Go ] with [,] as the separator. *)
Lemma X13_demo_onAdd_takes_any_text_witness :
  let react := mkChip (lit "1") (lit "React") None (Some true) None in
  let go := mkChip (Crypto.randomUUID 0) (lit "Go") (Some (lit "Go")) (Some false) (Some false) in
  ChipInput.handleInputChange [react] (Some (fun t => fst (App.handleAdd 0 t)))
    [lit ","] (lit "  Go ,")
  = [ChipInput.onChange [with_selected false react; go]; ChipInput.setInputValue []].
Proof.
  intros react go.
  destruct (X13_demo_onAdd_takes_any_text 0 [react] [lit ","] (lit "  Go ") 44 eq_refl)
    as (_ & _ & _ & _ & _ & H & _).
  exact H.
Defined.

Lemma handleKeyDown_copy (L : list Chip) (onCopy : bool) (inputValue : jsstring)
    (e : KeyboardEvent) :
  metaKey e || ctrlKey e = true -> key e = lit "c" ->
  existsb is_selected L = true ->
  handleKeyDown L onCopy inputValue e
  = Effect ChipInput.preventDefault
    :: (if onCopy then [Copy (filter is_selected L)] else []).
Proof.
  intros Hmod Hk Hsel. unfold handleKeyDown, ChipInput.selectedChips.
  rewrite Hmod, Hk, ChipInputFacts.existsb_filter_length, Hsel. reflexivity.
Qed.

Lemma reconstructed_length (rng : Crypto.entropy) (k : nat) (cs : list SerializedChip) :
  length (reconstructed rng k cs) = length cs.
Proof.
  revert k. induction cs as [|c cs IH]; intros k; [reflexivity|].
  cbn [reconstructed length]. rewrite IH. reflexivity.
Qed.

Lemma pasted_chips_unselected (rng : Crypto.entropy) (k : nat) (cs : list SerializedChip) :
  Forall (fun c => is_selected c = false) (pasted_chips rng k cs).
Proof.
  revert k. induction cs as [|c cs IH]; intros k; [constructor|].
  cbn [pasted_chips]. constructor; [reflexivity|apply IH].
Qed.

(** X14. A copy and a paste between two components of the application.
    Cmd/Ctrl+C on a list with a selection hands the selected chips to
    [handleCopy], which writes their encoding to the clipboard.
    [handlePaste] reads that text back without failing, logs it as the
    structured format with the number of chips copied and prints
    nothing; the chips it returns carry the labels of the copied ones,
    their values (the label where there was none), drawn ids, and are
    not selected. [ChipInput]'s paste handler then appends them behind
    the receiving list, deselected, and empties its input. *)
Theorem X14_copy_then_paste (rng : Crypto.entropy) (L L2 : list Chip)
    (inputValue : jsstring) (e : KeyboardEvent) :
  metaKey e || ctrlKey e = true -> key e = lit "c" ->
  existsb is_selected L = true ->
  let copied := filter is_selected L in
  let text := serialize copied in
  exists raw pasted,
    handleKeyDown L true inputValue e = [Effect ChipInput.preventDefault; Copy copied]
    /\ App.handleCopy copied
       = [App.writeText text;
          App.addLog (lit "Copied " ++ App.count (length copied)
                      ++ lit " chip(s) to clipboard (ChipInput format)")]
    /\ App.handlePaste rng text
       = Normal (App.mkPasted (Some raw)
                   [App.addLog (lit "Pasted " ++ App.count (length copied)
                                ++ lit " chip(s) (ChipInput format)")]
                   [])
    /\ all_typed raw = Some pasted
    /\ map label pasted = map label copied
    /\ map value pasted = map pasted_value copied
    /\ map id pasted = fresh_ids rng (length copied)
    /\ Forall (fun c => is_selected c = false) pasted
    /\ forall paste, paste text = Some pasted ->
         ChipInput.handlePaste L2 (Some paste) text
         = [ChipInput.preventDefault;
            ChipInput.onChange (map (with_selected false) L2 ++ pasted);
            ChipInput.setInputValue []].
Proof.
  intros Hmod Hk Hsel copied text.
  exists (reconstructed rng 0 (map clean copied)), (pasted_chips rng 0 (map clean copied)).
  split; [exact (handleKeyDown_copy L true inputValue e Hmod Hk Hsel)|].
  split; [reflexivity|]. split.
  { unfold App.handlePaste, text. rewrite deserialize_serialize. cbn [bind returned console].
    unfold isChipInputFormat, serialize. rewrite startsWith_app.
    rewrite reconstructed_length, length_map. reflexivity. }
  split; [apply all_typed_reconstructed|].
  split; [rewrite pasted_chips_labels, map_map; reflexivity|].
  split; [apply SerializerMore.pasted_chips_pasted_values|].
  split; [rewrite pasted_chips_ids, length_map; reflexivity|].
  split; [apply pasted_chips_unselected|].
  intros paste Hp. unfold ChipInput.handlePaste. rewrite Hp.
  assert (Hlen : length (pasted_chips rng 0 (map clean copied)) = length copied).
  { rewrite <- (length_map label), pasted_chips_labels, !length_map. reflexivity. }
  rewrite Hlen. unfold copied.
  rewrite ChipInputFacts.existsb_filter_length, Hsel. reflexivity.
Qed.

(** X14 at Ctrl+C on React, TypeScript with TypeScript selected, pasted
    behind Vite. *)
Lemma X14_copy_then_paste_witness :
  let react := mkChip (lit "1") (lit "React") None None None in
  let ts := mkChip (lit "2") (lit "TypeScript") None (Some true) None in
  let vite := mkChip (lit "3") (lit "Vite") None (Some true) None in
  exists raw pasted,
    App.handlePaste (fun _ => 0) (serialize [ts])
    = Normal (App.mkPasted (Some raw)
                [App.addLog (lit "Pasted 1 chip(s) (ChipInput format)")] [])
    /\ all_typed raw = Some pasted
    /\ map label pasted = [lit "TypeScript"]
    /\ forall paste, paste (serialize [ts]) = Some pasted ->
         ChipInput.handlePaste [vite] (Some paste) (serialize [ts])
         = [ChipInput.preventDefault;
            ChipInput.onChange (with_selected false vite :: pasted);
            ChipInput.setInputValue []].
Proof.
  intros react ts vite.
  destruct (X14_copy_then_paste (fun _ => 0) [react; ts] [vite] []
              (mkEvent (lit "c") false true) eq_refl eq_refl eq_refl)
    as (raw & pasted & _ & _ & H3 & H4 & H5 & _ & _ & _ & H9).
  exists raw, pasted. repeat split; assumption.
Defined.

End AppFacts.
